(** * CodaToFramerAPI: the mapping core ([src/mapping.ts]) and the field filter
      and the push formulas of [src/pack.ts], embedded as Rocq functions.

    Strings are sequences of UTF-16 code units, numbers are binary64 floats,
    [Map]s are finite maps, plain objects are association lists whose first
    binding of a key is the property.  Calls into the JavaScript runtime and
    into the [marked] / [sanitize-html] packages that have no small model
    (Unicode case mapping, number printing, date parsing, Markdown rendering,
    JSON printing) are members of the [Runtime] class. *)

From Stdlib Require Import ZArith NArith List Bool Ascii String Floats Lia.
From Stdlib Require Import DecimalString.
From stdpp Require Import base option list gmap.
Import ListNotations.

Set Warnings "-register-all".

Local Open Scope N_scope.

(** ** Strings *)

Abbreviation jsstring := (list N).

(** An ASCII literal as a JavaScript string. *)
Definition str (s : string) : jsstring :=
  map N_of_ascii (list_ascii_of_string s).

(** The code unit of an ASCII character. *)
Definition cu (a : ascii) : N := N_of_ascii a.

(** The double quote, U+0022. *)
Definition dquote : N := 34.

Definition streqb (a b : jsstring) : bool := bool_decide (a = b).

(** [WhiteSpace] and [LineTerminator] of ECMAScript: what [trim] removes and
    what [\s] matches. *)
Definition isWhiteSpace (c : N) : bool :=
  (c =? 9) || (c =? 10) || (c =? 11) || (c =? 12) || (c =? 13) || (c =? 32)
  || (c =? 160) || (c =? 5760) || ((8192 <=? c) && (c <=? 8202))
  || (c =? 8232) || (c =? 8233) || (c =? 8239) || (c =? 8287)
  || (c =? 12288) || (c =? 65279).

(** [.] of a regular expression without the [s] flag: anything but a line
    terminator. *)
Definition isLineTerminator (c : N) : bool :=
  (c =? 10) || (c =? 13) || (c =? 8232) || (c =? 8233).

Fixpoint dropWhile {A} (p : A → bool) (l : list A) : list A :=
  match l with
  | [] => []
  | x :: r => if p x then dropWhile p r else l
  end.

(** The longest prefix whose elements satisfy [p], and the rest. *)
Fixpoint span {A} (p : A → bool) (l : list A) : list A * list A :=
  match l with
  | [] => ([], [])
  | x :: r => if p x then let '(a, b) := span p r in (x :: a, b) else ([], l)
  end.

Definition trimStart (s : jsstring) : jsstring := dropWhile isWhiteSpace s.
Definition trimEnd (s : jsstring) : jsstring :=
  rev (dropWhile isWhiteSpace (rev s)).
Definition trim (s : jsstring) : jsstring := trimEnd (trimStart s).

Fixpoint startsWith (s p : jsstring) : bool :=
  match p, s with
  | [], _ => true
  | _ :: _, [] => false
  | a :: p', b :: s' => (a =? b) && startsWith s' p'
  end.

Definition endsWith (s p : jsstring) : bool := startsWith (rev s) (rev p).

Fixpoint includes (s p : jsstring) : bool :=
  startsWith s p ||
  match s with
  | [] => false
  | _ :: r => includes r p
  end.

(** [s.slice(0, -1)]. *)
Definition dropLast (s : jsstring) : jsstring := removelast s.

(** [Boolean(s)] for a string. *)
Definition nonEmpty (s : jsstring) : bool :=
  match s with [] => false | _ => true end.

(** [Array.prototype.join]. *)
Fixpoint join (sep : jsstring) (l : list jsstring) : jsstring :=
  match l with
  | [] => []
  | [x] => x
  | x :: r => x ++ sep ++ join sep r
  end.

(** [String.prototype.replace] with a global regular expression that never
    matches the empty string.  [m s] tries the expression at the start of [s]
    and gives the replacement text and the length of the match; after a match
    the scan resumes behind it, after a failure one code unit further. *)
Fixpoint replaceAll (m : jsstring → option (jsstring * nat)) (skip : nat)
    (s : jsstring) : jsstring :=
  match s with
  | [] => []
  | c :: r =>
    match skip with
    | S k => replaceAll m k r
    | O =>
      match m s with
      | Some (repl, len) => repl ++ replaceAll m (Nat.pred len) r
      | None => c :: replaceAll m 0 r
      end
    end
  end.

Definition backtick : N := cu "`".
Definition fence : jsstring := [backtick; backtick; backtick].

(** [s.replace(/^```|```$/g, empty)]: a fence at the very start is removed,
    and a fence at the very end of what follows it. *)
Definition stripFences (s : jsstring) : jsstring :=
  let s1 := if startsWith s fence then drop 3 s else s in
  if endsWith s1 fence then take (length s1 - 3) s1 else s1.

(** The text before the first occurrence of [p] in [s], and the text behind
    that occurrence. *)
Fixpoint splitAt (p : jsstring) (s : jsstring) : option (jsstring * jsstring) :=
  if startsWith s p then Some ([], drop (length p) s)
  else match s with
       | [] => None
       | c :: r =>
         match splitAt p r with
         | Some (a, b) => Some (c :: a, b)
         | None => None
         end
       end.

(** ** Values

    The raw cell values are what [JSON.parse] produces, and [undefined] for a
    property that is not there.  Property reads concern own properties; of an
    array only its elements are read. *)

Inductive value :=
  | VUndefined
  | VNull
  | VBool (b : bool)
  | VNum (x : float)
  | VStr (s : jsstring)
  | VArr (xs : list value)
  | VObj (props : list (jsstring * value)).

(** The first binding of [k] in an association list. *)
Fixpoint assoc {A} (k : jsstring) (ps : list (jsstring * A)) : option A :=
  match ps with
  | [] => None
  | (k', v) :: r => if streqb k k' then Some v else assoc k r
  end.

(** [obj[k]] where [obj] is a plain object given by its properties. *)
Definition getProp (ps : list (jsstring * value)) (k : jsstring) : value :=
  default VUndefined (assoc k ps).

(** [v[k]] for a value that [typeof] calls an object (arrays have none of the
    properties read here). *)
Definition prop (v : value) (k : jsstring) : value :=
  match v with
  | VObj ps => getProp ps k
  | _ => VUndefined
  end.

(** [k in v] for an object value. *)
Definition hasProp (v : value) (k : jsstring) : bool :=
  match v with
  | VObj ps => bool_decide (is_Some (assoc k ps))
  | _ => false
  end.

(** [Object.entries]: each key once, with the value a property read gives. *)
Fixpoint entries {A} (ps : list (jsstring * A)) : list (jsstring * A) :=
  match ps with
  | [] => []
  | (k, v) :: r =>
    (k, v) :: List.filter (λ kv, negb (streqb kv.1 k)) (entries r)
  end.

(** [typeof v === "object" && v !== null]. *)
Definition isObject (v : value) : bool :=
  match v with
  | VArr _ | VObj _ => true
  | _ => false
  end.

Definition isArray (v : value) : bool :=
  match v with
  | VArr _ => true
  | _ => false
  end.

(** [typeof v === "string"], with the string. *)
Definition asString (v : value) : option jsstring :=
  match v with
  | VStr s => Some s
  | _ => None
  end.

(** JavaScript truthiness. *)
Definition truthy (v : value) : bool :=
  match v with
  | VUndefined | VNull => false
  | VBool b => b
  | VNum x => negb (PrimFloat.is_zero x || PrimFloat.is_nan x)
  | VStr s => nonEmpty s
  | VArr _ | VObj _ => true
  end.

(** What the date getters of a valid [Date] return. *)
Record DateObj := {
  getUTCFullYear : Z;
  getUTCMonth : Z;
  getUTCDate : Z;
  getFullYear : Z;
  getMonth : Z;
  getDate : Z;
  getHours : Z;
  getMinutes : Z;
  getSeconds : Z;
  getMilliseconds : Z;
  toISOString : jsstring;
}.

(** U+0041 .. U+005A to lower case, every other code unit unchanged. *)
Definition asciiLower (c : N) : N :=
  if (65 <=? c) && (c <=? 90) then c + 32 else c.

Definition isAscii (c : N) : bool := c <? 128.

(** The parts of the JavaScript runtime and of the [marked] and
    [sanitize-html] packages that the mapping calls and that are taken as
    given. *)
Class Runtime := {
  (** [String.prototype.toLowerCase] *)
  toLowerCase : jsstring → jsstring;
  toLowerCase_ascii :
    ∀ s, forallb isAscii s = true → toLowerCase s = map asciiLower s;
  (** [String(x)] for a number *)
  numberToString : float → jsstring;
  (** [new Date(s)] for a string; [None] is the invalid date *)
  newDate : jsstring → option DateObj;
  (** [JSON.stringify] *)
  jsonStringify : value → jsstring;
  (** [sanitizeHtml(marked.parse(markdown), ...)] with the allow lists of
      [markdownToSanitizedHtml] *)
  markdownToSanitizedHtml : jsstring → jsstring;
}.

(** [String(v)]. *)
Fixpoint String_ `{Runtime} (v : value) : jsstring :=
  match v with
  | VUndefined => str "undefined"
  | VNull => str "null"
  | VBool true => str "true"
  | VBool false => str "false"
  | VNum x => numberToString x
  | VStr s => s
  | VArr xs =>
    join (str ",")
      (map (λ x, match x with
                 | VUndefined | VNull => []
                 | _ => String_ x
                 end) xs)
  | VObj _ => str "[object Object]"
  end.

(** ** Text helpers of [mapping.ts] *)

Section TextHelpers.
Context `{Runtime}.

(** [typeof obj[k] === "string" && obj[k]]: a string property that is not
    empty. *)
Definition truthyStringProp (ps : list (jsstring * value)) (k : jsstring)
    : option jsstring :=
  match getProp ps k with
  | VStr s => if nonEmpty s then Some s else None
  | _ => None
  end.

(** The [{"@type": "WebPage", url}] shape: its [url]. *)
Definition webPageUrl (ps : list (jsstring * value)) : option jsstring :=
  match getProp ps (str "url"), getProp ps (str "@type") with
  | VStr url, VStr ty => if streqb ty (str "WebPage") then Some url else None
  | _, _ => None
  end.

Definition extractMeaningfulText (item : value) : jsstring :=
  match item with
  | VStr s => s
  | VObj ps =>
    match webPageUrl ps with
    | Some url => url
    | None =>
      default (String_ item)
        (truthyStringProp ps (str "rawValue")
         ∪ truthyStringProp ps (str "value")
         ∪ truthyStringProp ps (str "displayValue")
         ∪ truthyStringProp ps (str "name")
         ∪ truthyStringProp ps (str "content"))
    end
  | _ => String_ item
  end.

(** [\[([^\]]+)]\(([^)]+)\)] at the start of [s]: the link text, the link
    target and the length of the match. *)
Definition matchLink (s : jsstring) : option (jsstring * jsstring * nat) :=
  match s with
  | c :: r =>
    if c =? cu "[" then
      let '(text, r1) := span (λ x, negb (x =? cu "]")) r in
      match text, r1 with
      | _ :: _, c1 :: c2 :: r2 =>
        if (c1 =? cu "]") && (c2 =? cu "(") then
          let '(url, r3) := span (λ x, negb (x =? cu ")")) r2 in
          match url, r3 with
          | _ :: _, _ :: _ =>
            Some (text, url, (length text + length url + 4)%nat)
          | _, _ => None
          end
        else None
      | _, _ => None
      end
    else None
  | [] => None
  end.

(** The replacement function of the link pass of [stripMarkdown]. *)
Definition linkReplacement (linkText linkUrl : jsstring) : jsstring :=
  if startsWith linkUrl (str "mailto:") then
    let emailFromUrl := drop 7 linkUrl in
    if streqb (toLowerCase linkText) (toLowerCase emailFromUrl)
    then emailFromUrl else linkText
  else linkText.

(** [```([\s\S]*?)```] at the start of [s], replaced by the trimmed group. *)
Definition matchFenced (s : jsstring) : option (jsstring * nat) :=
  if startsWith s fence then
    match splitAt fence (drop 3 s) with
    | Some (group, _) => Some (trim group, (length group + 6)%nat)
    | None => None
    end
  else None.

(** A backtick, any run without backtick (the group) and a backtick at the
    start of [s], replaced by the trimmed group. *)
Definition matchInlineCode (s : jsstring) : option (jsstring * nat) :=
  match s with
  | c :: r =>
    if c =? backtick then
      let '(group, r1) := span (λ x, negb (x =? backtick)) r in
      match r1 with
      | _ :: _ => Some (trim group, (length group + 2)%nat)
      | [] => None
      end
    else None
  | [] => None
  end.

Definition stripMarkdown (text : jsstring) : jsstring :=
  let t1 :=
    replaceAll
      (λ s, match matchLink s with
            | Some (linkText, linkUrl, len) =>
              Some (linkReplacement linkText linkUrl, len)
            | None => None
            end) 0 text in
  let t2 := replaceAll matchFenced 0 t1 in
  let t3 := replaceAll matchInlineCode 0 t2 in
  trim t3.

(** [!\[[^\]]*\]\(([^)]+)\)] at the start of [s]: the group. *)
Definition matchImage (s : jsstring) : option jsstring :=
  match s with
  | c0 :: c1 :: r =>
    if (c0 =? cu "!") && (c1 =? cu "[") then
      let '(_, r1) := span (λ x, negb (x =? cu "]")) r in
      match r1 with
      | c2 :: c3 :: r2 =>
        if (c2 =? cu "]") && (c3 =? cu "(") then
          let '(url, r3) := span (λ x, negb (x =? cu ")")) r2 in
          match url, r3 with
          | _ :: _, _ :: _ => Some url
          | _, _ => None
          end
        else None
      | _ => None
      end
    else None
  | _ => None
  end.

(** The first match of a regular expression anywhere in [s]. *)
Fixpoint firstMatch {A} (m : jsstring → option A) (s : jsstring) : option A :=
  match m s with
  | Some a => Some a
  | None => match s with
            | [] => None
            | _ :: r => firstMatch m r
            end
  end.

Definition extractUrlFromMarkdown (text : jsstring) : jsstring :=
  match firstMatch matchImage text with
  | Some url => trim url
  | None =>
    if startsWith text fence && endsWith text fence && (6 <=? length text)%nat
    then trim (take (length text - 6) (drop 3 text))
    else
      match text with
      | c :: r =>
        if (c =? backtick) && endsWith r [backtick]
           && forallb (λ x, negb (x =? backtick)) (removelast r)
        then trim (removelast r)
        else trim text
      | [] => trim text
      end
  end.

Definition isValidAssetUrl (url : jsstring) : bool :=
  let trimmed := trim url in
  startsWith trimmed (str "http://")
  || startsWith trimmed (str "https://")
  || includes trimmed (str "codahosted.io/").

(** [startsWith] under the [i] flag, for a lower-case ASCII [p]: an ASCII
    letter matches both its cases, and no code unit above U+007F matches an
    ASCII one. *)
Definition startsWithNoCase (s p : jsstring) : bool :=
  startsWith (map asciiLower s) p.

Definition imageExtensions : list jsstring :=
  map str ["jpeg"; "jpg"; "png"; "gif"; "webp"; "svg"; "bmp"; "tiff"; "tif";
           "ico"; "apng"; "avif"]%string.

(** One of the image extensions, then the end of the text or a question mark
    and no line terminator up to the end. *)
Definition matchExtensionTail (s : jsstring) : bool :=
  existsb
    (λ ext,
       startsWithNoCase s ext &&
       match drop (length ext) s with
       | [] => true
       | c :: r => (c =? cu "?") && forallb (λ x, negb (isLineTerminator x)) r
       end)
    imageExtensions.

(** One or more code units that are not white space, a dot and the extension
    tail, at the start of [s]; [seen] says that at least one code unit of the
    run has been read. *)
Fixpoint matchPathAndExtension (seen : bool) (s : jsstring) : bool :=
  match s with
  | [] => false
  | c :: r =>
    (seen && (c =? cu ".") && matchExtensionTail r)
    || (negb (isWhiteSpace c) && matchPathAndExtension true r)
  end.

(** [https?:\/\/] at the start of [s], under the [i] flag or not: what follows
    it. *)
Definition afterScheme (nocase : bool) (s : jsstring) : option jsstring :=
  let sw := if nocase then startsWithNoCase else startsWith in
  if sw s (str "http://") then Some (drop 7 s)
  else if sw s (str "https://") then Some (drop 8 s)
  else None.

Definition isLikelyImageUrl (url : jsstring) : bool :=
  let trimmed := trim url in
  match afterScheme true trimmed with
  | Some r => matchPathAndExtension false r
  | None => false
  end
  || match afterScheme false trimmed with
     | Some r => startsWith r (str "codahosted.io/")
     | None => false
     end.

End TextHelpers.

(** ** Numbers

    [Number(s)] for a string: the [StringToNumber] of ECMAScript, with the
    decimal value rounded to the nearest binary64 float, ties to even. *)

Definition isDigit (c : N) : bool := (48 <=? c) && (c <=? 57).

(** The value of a digit in a base up to 16, if it is one. *)
Definition digitValue (base : N) (c : N) : option N :=
  let v :=
    if (48 <=? c) && (c <=? 57) then Some (c - 48)
    else if (97 <=? c) && (c <=? 102) then Some (c - 87)
    else if (65 <=? c) && (c <=? 70) then Some (c - 55)
    else None in
  match v with
  | Some d => if d <? base then Some d else None
  | None => None
  end.

(** The number a sequence of digits denotes; [None] when a code unit is not a
    digit of the base. *)
Definition digitsValue (base : N) (ds : jsstring) : option N :=
  foldl (λ acc c,
           match acc, digitValue base c with
           | Some a, Some d => Some (a * base + d)
           | _, _ => None
           end) (Some 0) ds.

(** [m * 10^e], rounded to binary64. *)
Definition decimalToFloat (m : N) (e : Z) : float :=
  match m with
  | N0 => PrimFloat.zero
  | Npos p =>
    SF2Prim
      (match e with
       | Zneg k =>
         SFdiv prec emax (S754_finite false p 0)
           (S754_finite false (Pos.pow 10 k) 0)
       | _ => binary_normalize prec emax (Zpos p * 10 ^ e) 0 false
       end)
  end.

(** An integer as a float. *)
Definition natToFloat (n : N) : float := decimalToFloat n 0.

(** An optional sign: whether it is a minus, and what follows. *)
Definition readSign (s : jsstring) : bool * jsstring :=
  match s with
  | c :: r =>
    if c =? cu "-" then (true, r)
    else if c =? cu "+" then (false, r)
    else (false, s)
  | [] => (false, s)
  end.

(** [StrUnsignedDecimalLiteral]: [Infinity], or digits with an optional
    fraction and an optional exponent, at least one digit before the
    exponent. *)
Definition parseUnsignedDecimal (s : jsstring) : float :=
  if streqb s (str "Infinity") then PrimFloat.infinity
  else
    let '(ip, r1) := span isDigit s in
    let '(fp, r2) :=
      match r1 with
      | c :: r => if c =? cu "." then span isDigit r else ([], r1)
      | [] => ([], r1)
      end in
    match ip ++ fp with
    | [] => PrimFloat.nan
    | ds =>
      let m := default 0 (digitsValue 10 ds) in
      let scale := Z.opp (Z.of_nat (length fp)) in
      match r2 with
      | [] => decimalToFloat m scale
      | c :: r3 =>
        if (c =? cu "e") || (c =? cu "E") then
          let '(neg, r4) := readSign r3 in
          match r4, digitsValue 10 r4 with
          | _ :: _, Some x =>
            let ex := if neg then Z.opp (Z.of_N x) else Z.of_N x in
            decimalToFloat m (ex + scale)
          | _, _ => PrimFloat.nan
          end
        else PrimFloat.nan
      end
    end.

(** [0x], [0o] and [0b] literals: the base and the digits. *)
Definition nonDecimalLiteral (s : jsstring) : option (N * jsstring) :=
  match s with
  | c0 :: c1 :: r =>
    if c0 =? cu "0" then
      if (c1 =? cu "x") || (c1 =? cu "X") then Some (16, r)
      else if (c1 =? cu "o") || (c1 =? cu "O") then Some (8, r)
      else if (c1 =? cu "b") || (c1 =? cu "B") then Some (2, r)
      else None
    else None
  | _ => None
  end.

(** [Number(s)]. *)
Definition Number_ (s : jsstring) : float :=
  let t := trim s in
  match t with
  | [] => PrimFloat.zero
  | _ =>
    match nonDecimalLiteral t with
    | Some (base, ds) =>
      match ds, digitsValue base ds with
      | _ :: _, Some n => natToFloat n
      | _, _ => PrimFloat.nan
      end
    | None =>
      let '(neg, r) := readSign t in
      let x := parseUnsignedDecimal r in
      if neg then PrimFloat.opp x else x
    end
  end.

(** [String(n)] for an integer-valued number. *)
Definition intToString (z : Z) : jsstring :=
  str (DecimalString.NilZero.string_of_int (Z.to_int z)).

(** [s.padStart(n, "0")]. *)
Definition padStart0 (n : nat) (s : jsstring) : jsstring :=
  repeat (cu "0") (n - length s) ++ s.

(** [s.split(sep)] for a separator of one code unit. *)
Fixpoint splitOn (sep : N) (s : jsstring) : list jsstring :=
  match s with
  | [] => [[]]
  | c :: r =>
    if c =? sep then [] :: splitOn sep r
    else match splitOn sep r with
         | p :: ps => (c :: p) :: ps
         | [] => [[c]]
         end
  end.

(** ** The time formatter *)

Section TimeFormatter.
Context `{Runtime}.

Definition digitZ (c : N) : Z := Z.of_N (c - 48).

(** [([0-5]\d)] and the end of the text, or the same followed by a colon and
    a second such pair: minutes and seconds. *)
Definition matchMinutesSeconds (s : jsstring) : option (Z * Z) :=
  match s with
  | m1 :: m2 :: r =>
    if (48 <=? m1) && (m1 <=? 53) && isDigit m2 then
      let minutes := (10 * digitZ m1 + digitZ m2)%Z in
      match r with
      | [] => Some (minutes, 0%Z)
      | [c; s1; s2] =>
        if (c =? cu ":") && (48 <=? s1) && (s1 <=? 53) && isDigit s2
        then Some (minutes, (10 * digitZ s1 + digitZ s2)%Z)
        else None
      | _ => None
      end
    else None
  | _ => None
  end.

(** The bare [HH:MM[:SS]] pattern of [formatTimeValue]; the hours are one
    digit, or two digits from 00 to 23. *)
Definition matchTimeOnly (s : jsstring) : option (Z * Z * Z) :=
  match s with
  | h1 :: c :: r =>
    if isDigit h1 && (c =? cu ":") then
      match matchMinutesSeconds r with
      | Some (m, sec) => Some (digitZ h1, m, sec)
      | None => None
      end
    else
      match r with
      | c' :: r' =>
        if (c' =? cu ":")
           && ((((h1 =? cu "0") || (h1 =? cu "1")) && isDigit c)
               || ((h1 =? cu "2") && (48 <=? c) && (c <=? 51)))
        then
          match matchMinutesSeconds r' with
          | Some (m, sec) => Some ((10 * digitZ h1 + digitZ c)%Z, m, sec)
          | None => None
          end
        else None
      | [] => None
      end
  | _ => None
  end.

Definition formatTimeValue (v : value) (use12HourTime : bool)
    : option jsstring :=
  let parsed :=
    match v with
    | VStr s =>
      match matchTimeOnly s with
      | Some t => Some t
      | None =>
        match newDate s with
        | Some d => Some (getHours d, getMinutes d, getSeconds d)
        | None => None
        end
      end
    | _ => None
    end in
  match parsed with
  | None => None
  | Some (hours, minutes, secondsVal) =>
    let secondsPart :=
      if (0 <? secondsVal)%Z
      then str ":" ++ padStart0 2 (intToString secondsVal) else [] in
    if use12HourTime then
      let ampm := if (12 <=? hours)%Z then str "PM" else str "AM" in
      let formattedHours :=
        if (hours mod 12 =? 0)%Z then 12%Z else (hours mod 12)%Z in
      Some (intToString formattedHours ++ str ":"
            ++ padStart0 2 (intToString minutes) ++ secondsPart
            ++ str " " ++ ampm)
    else
      Some (padStart0 2 (intToString hours) ++ str ":"
            ++ padStart0 2 (intToString minutes) ++ secondsPart)
  end.

End TimeFormatter.

(** ** The data model *)

(** Modelled from the spec: the field types of [ManagedCollectionFieldInput]
    ([framer-api] is not part of the sources); section 3 of the specification
    lists them.  The [default] arms of the [switch]es over [field.type] have
    no field type left to apply to. *)
Inductive FieldType :=
  | TString | TNumber | TBoolean | TDate | TImage | TFile | TFormattedText
  | TLink | TEnum | TCollectionReference | TMultiCollectionReference.

#[global] Instance FieldType_eq_dec : EqDecision FieldType.
Proof. solve_decision. Defined.

(** A declared choice of a source column: [{name, id?}]. *)
Record Choice := {
  choice_name : jsstring;
  choice_id : option jsstring;
}.

(** A case of an [enum] field: [{id, name}]. *)
Record EnumCase := {
  case_id : jsstring;
  case_name : jsstring;
}.

(** [format.options]: a bare array of choices, or [{choices?}]. *)
Inductive ColumnOptions :=
  | OptionsArray (choices : list Choice)
  | OptionsObject (choices : option (list Choice)).

(** [CodaColumnFormat]; [fmt_tableId] is [format.table?.id]. *)
Record CodaColumnFormat := {
  fmt_type : jsstring;
  fmt_isArray : bool;
  fmt_tableId : option jsstring;
  fmt_options : option ColumnOptions;
}.

Record CodaColumnInput := {
  col_id : jsstring;
  col_name : jsstring;
  col_format : CodaColumnFormat;
}.

Record ReferenceMapEntry := {
  codaTableId : jsstring;
  framerCollectionId : jsstring;
}.

Record NormalizedRow := {
  row_id : option jsstring;
  row_values : list (jsstring * value);
}.

(** [ManagedCollectionFieldInput]. *)
Record Field := {
  field_id : jsstring;
  field_name : jsstring;
  field_type : FieldType;
  field_cases : option (list EnumCase);
  field_collectionId : option jsstring;
  field_allowedFileTypes : option (list jsstring);
}.

(** [FieldDataEntryInput]: [{type, value}]. *)
Record FieldDataEntry := {
  entry_type : FieldType;
  entry_value : value;
}.

(** [ManagedCollectionItemInput]. *)
Record Item := {
  item_id : jsstring;
  item_slug : jsstring;
  item_draft : bool;
  item_fieldData : gmap jsstring FieldDataEntry;
}.

Record MappingResult := {
  fields : list Field;
  items : list Item;
  warnings : list jsstring;
  skippedCount : nat;
}.

(** A field with [id], [name] and [type] only. *)
Definition plainField (c : CodaColumnInput) (t : FieldType) : Field :=
  {| field_id := col_id c; field_name := col_name c; field_type := t;
     field_cases := None; field_collectionId := None;
     field_allowedFileTypes := None |}.

(** ** The Reference Map Builder *)

(** [new Map(pairs)]: a later pair of a key replaces an earlier one. *)
Definition mapOfList {A} (pairs : list (jsstring * A)) : gmap jsstring A :=
  list_to_map (rev pairs).

Definition buildReferenceMap (entries : option (list ReferenceMapEntry))
    : gmap jsstring jsstring :=
  match entries with
  | None => ∅
  | Some es =>
    foldl (λ m entry,
             if nonEmpty (codaTableId entry)
                && nonEmpty (framerCollectionId entry)
             then <[codaTableId entry := framerCollectionId entry]> m
             else m) ∅ es
  end.

(** ** The Type Mapper *)

Section Mapping.
Context `{Runtime}.

(** [Array.isArray(options) ? options : options?.choices]. *)
Definition enumChoices (fmt : CodaColumnFormat) : option (list Choice) :=
  match fmt_options fmt with
  | Some (OptionsArray cs) => Some cs
  | Some (OptionsObject cs) => cs
  | None => None
  end.

(** [choice.id || choice.name || `choice-${index}`]. *)
Definition choiceCaseId (choice : Choice) (index : nat) : jsstring :=
  match choice_id choice with
  | Some ((_ :: _) as i) => i
  | _ =>
    match choice_name choice with
    | (_ :: _) as n => n
    | [] => str "choice-" ++ intToString (Z.of_nat index)
    end
  end.

(** [baseType === t] for a literal [t]. *)
Definition typeIs (baseType : jsstring) (t : string) : bool :=
  streqb baseType (str t).

(** One of the [case] labels [ts] of the [switch] over [baseType]. *)
Definition typeIn (baseType : jsstring) (ts : list string) : bool :=
  existsb (typeIs baseType) ts.

Definition mapCodaTypeToFramerType (column : CodaColumnInput) : option Field :=
  let baseType := toLowerCase (fmt_type (col_format column)) in
  let name := toLowerCase (col_name column) in
  let id := toLowerCase (col_id column) in
  if typeIs baseType "button" then None
  else if typeIs baseType "image"
          || includes name (str "image") || includes name (str "graphic")
          || includes id (str "image") || includes id (str "graphic")
  then Some (plainField column TImage)
  else
    match (if typeIn baseType ["select"; "scale"]%string
           then enumChoices (col_format column) else None) with
    | Some choices =>
      Some {| field_id := col_id column; field_name := col_name column;
              field_type := TEnum;
              field_cases :=
                Some (imap (λ index choice,
                              {| case_id := choiceCaseId choice index;
                                 case_name := choice_name choice |}) choices);
              field_collectionId := None; field_allowedFileTypes := None |}
    | None =>
      if typeIn baseType ["text"; "email"; "phone"]%string then
        Some (plainField column TString)
      else if typeIn baseType
                ["number"; "currency"; "percent"; "duration"]%string then
        Some (plainField column TNumber)
      else if typeIs baseType "checkbox" then
        Some (plainField column TBoolean)
      else if typeIn baseType ["date"; "datetime"]%string then
        Some (plainField column TDate)
      else if typeIs baseType "time" then Some (plainField column TString)
      else if typeIs baseType "image" then Some (plainField column TImage)
      else if typeIs baseType "file" then
        Some {| field_id := col_id column; field_name := col_name column;
                field_type := TFile; field_cases := None;
                field_collectionId := None;
                field_allowedFileTypes := Some [str "*"] |}
      else if typeIn baseType ["canvas"; "richtext"]%string then
        Some (plainField column TFormattedText)
      else if typeIn baseType ["person"; "lookup"; "reference"]%string then
        if typeIs baseType "lookup" && negb (fmt_isArray (col_format column))
        then
          Some {| field_id := col_id column; field_name := col_name column;
                  field_type := TEnum; field_cases := Some [];
                  field_collectionId := None; field_allowedFileTypes := None |}
        else Some (plainField column TString)
      else if typeIn baseType ["url"; "link"]%string then
        Some (plainField column TLink)
      else Some (plainField column TString)
    end.

(** The callback of [columns.map] in [buildFieldsAndItems]: the mapped field,
    with the reference override, and the warnings it pushes. *)
Definition mapColumn (referenceMap : gmap jsstring jsstring)
    (column : CodaColumnInput) : option Field * list jsstring :=
  match mapCodaTypeToFramerType column with
  | Some mappedField =>
    if bool_decide (field_type mappedField = TString)
       && streqb (toLowerCase (fmt_type (col_format column))) (str "lookup")
       && fmt_isArray (col_format column)
    then
      let refId := fmt_tableId (col_format column) in
      let linkedCollectionId :=
        match refId with
        | Some ((_ :: _) as r) => referenceMap !! r
        | _ => None
        end in
      match linkedCollectionId with
      | Some ((_ :: _) as linked) =>
        (Some {| field_id := col_id column; field_name := col_name column;
                 field_type := TMultiCollectionReference;
                 field_cases := None; field_collectionId := Some linked;
                 field_allowedFileTypes := None |}, [])
      | _ =>
        match refId with
        | Some ((_ :: _) as r) =>
          (Some mappedField,
           [str "No Framer collection mapping found for lookup field "
            ++ [dquote] ++ col_name column ++ [dquote]
            ++ str " (Coda table " ++ r ++ str ")."])
        | _ => (Some mappedField, [])
        end
      end
    else (Some mappedField, [])
  | None => (None, [])
  end.

End Mapping.

(** ** The Value Transformer *)

Section ValueTransformer.
Context `{Runtime}.

(** [typeof obj[k] === "string"], with the string. *)
Definition stringProp (v : value) (k : string) : option jsstring :=
  asString (prop v (str k)).

(** [typeof obj[k] === "number"], with the number. *)
Definition numberProp (v : value) (k : string) : option float :=
  match prop v (str k) with
  | VNum x => Some x
  | _ => None
  end.

Definition extractReferenceId (v : value) : option jsstring :=
  match v with
  | VStr s => Some s
  | VArr _ | VObj _ => stringProp v "id" ∪ stringProp v "@id"
  | _ => None
  end.

(** [processItem] of [extractReferenceIds]. *)
Definition processItem (item : value) : option jsstring :=
  match item with
  | VStr s => Some s
  | VArr _ | VObj _ =>
    stringProp item "rowId" ∪ stringProp item "id" ∪ stringProp item "@id"
  | _ => None
  end.

(** [if (id) itemIds.push(id)]. *)
Definition pushIfTruthy (o : option jsstring) : list jsstring :=
  match o with
  | Some ((_ :: _) as i) => [i]
  | _ => []
  end.

Definition extractReferenceIds (v : value) : list jsstring :=
  match v with
  | VArr xs => flat_map (λ item, pushIfTruthy (processItem item)) xs
  | _ => pushIfTruthy (processItem v)
  end.

(** The value that is null, undefined or a blank string. *)
Definition isBlank (v : value) : bool :=
  match v with
  | VNull | VUndefined => true
  | VStr s => streqb (trim s) []
  | _ => false
  end.

(** The first [switch] of [transformCodaValue]: the entry of a blank value. *)
Definition emptyValue (t : FieldType) : option FieldDataEntry :=
  match t with
  | TString => Some {| entry_type := TString; entry_value := VStr [] |}
  | TNumber =>
    Some {| entry_type := TNumber; entry_value := VNum PrimFloat.zero |}
  | TBoolean => Some {| entry_type := TBoolean; entry_value := VBool false |}
  | TDate => None
  | TImage => Some {| entry_type := TImage; entry_value := VStr [] |}
  | TFile => Some {| entry_type := TFile; entry_value := VStr [] |}
  | TFormattedText =>
    Some {| entry_type := TFormattedText; entry_value := VStr [] |}
  | TLink => Some {| entry_type := TLink; entry_value := VStr [] |}
  | TCollectionReference =>
    Some {| entry_type := TCollectionReference; entry_value := VStr [] |}
  | TMultiCollectionReference =>
    Some {| entry_type := TMultiCollectionReference; entry_value := VArr [] |}
  | TEnum => Some {| entry_type := TEnum; entry_value := VStr [] |}
  end.

(** The dollar, pound, euro and yen signs of [/[$£€¥]/g]. *)
Definition currencySymbols : jsstring := [36; 163; 8364; 165].

(** The [number] case: the value of the entry. *)
Definition coerceNumber (v : value) : value :=
  match v with
  | VNum x => VNum x
  | VStr s =>
    let noCurrency :=
      List.filter (λ c, negb (existsb (N.eqb c) currencySymbols)) s in
    let cleanValue :=
      trim (List.filter (λ c, negb (c =? cu ",")) noCurrency) in
    if endsWith cleanValue (str "%") then
      let parsed := Number_ (dropLast cleanValue) in
      VNum (if PrimFloat.is_nan parsed then PrimFloat.zero
            else (parsed / 100)%float)
    else
      let parsed := Number_ cleanValue in
      VNum (if PrimFloat.is_nan parsed then PrimFloat.zero else parsed)
  | VArr _ | VObj _ =>
    let isMonetaryAmount :=
      match prop v (str "@type") with
      | VStr ty => streqb ty (str "MonetaryAmount")
      | _ => false
      end in
    if isMonetaryAmount then prop v (str "amount")
    else
      match numberProp v "value" ∪ numberProp v "amount" with
      | Some x => VNum x
      | None => VNum PrimFloat.zero
      end
  | _ => VNum PrimFloat.zero
  end.

(** The [date] case: the text of the entry, if the date is valid. *)
Definition coerceDate (v : value) (codaColumnType : jsstring)
    : option jsstring :=
  let scalar (x : value) : value :=
    match x with
    | VStr _ | VNum _ => x
    | _ => VStr []
    end in
  let dateValue :=
    if isObject v && hasProp v (str "value")
    then scalar (prop v (str "value")) else scalar v in
  match newDate (String_ dateValue) with
  | None => None
  | Some dateObj =>
    let pad2 z := padStart0 2 (intToString z) in
    if streqb codaColumnType (str "date") then
      Some (intToString (getUTCFullYear dateObj) ++ str "-"
            ++ pad2 (getUTCMonth dateObj + 1)%Z ++ str "-"
            ++ pad2 (getUTCDate dateObj))
    else if streqb codaColumnType (str "time") then
      let timePart :=
        match splitOn (cu "T") (toISOString dateObj) with
        | _ :: part :: _ => part
        | _ => str "undefined"
        end in
      Some (str "1970-01-01T" ++ timePart)
    else if streqb codaColumnType (str "datetime") then
      Some (intToString (getFullYear dateObj) ++ str "-"
            ++ pad2 (getMonth dateObj + 1)%Z ++ str "-"
            ++ pad2 (getDate dateObj) ++ str "T"
            ++ pad2 (getHours dateObj) ++ str ":"
            ++ pad2 (getMinutes dateObj) ++ str ":"
            ++ pad2 (getSeconds dateObj) ++ str "."
            ++ padStart0 3 (intToString (getMilliseconds dateObj)) ++ str "Z")
    else Some (toISOString dateObj)
  end.

(** The [formattedText] case. *)
Definition coerceFormattedText (v : value) (codaColumnType : jsstring)
    : jsstring :=
  if streqb codaColumnType (str "canvas")
     || streqb codaColumnType (str "richtext")
  then
    let markdown :=
      match v with
      | VArr _ | VObj _ =>
        match stringProp v "content" ∪ stringProp v "value" with
        | Some s => s
        | None =>
          let serialized := jsonStringify v in
          if streqb serialized (str "{}") then [] else serialized
        end
      | VStr s => s
      | _ => []
      end in
    markdownToSanitizedHtml markdown
  else String_ v.

(** The [string] case, behind the time formatter. *)
Definition coerceString (v : value) : jsstring :=
  let joined (rawArray : list value) :=
    join (str ", ")
      (List.filter nonEmpty (map extractMeaningfulText rawArray)) in
  stripMarkdown
    match v with
    | VArr xs => joined xs
    | VObj ps =>
      if hasProp v (str "rawValue") then
        match getProp ps (str "rawValue") with
        | VArr xs => joined xs
        | _ => joined []
        end
      else extractMeaningfulText v
    | _ => extractMeaningfulText v
    end.

(** The first of the [url], [contentUrl] and [thumbnailUrl] strings of an
    [ImageObject] that is an asset or image URL. *)
Definition imageObjectUrl (v : value) : option jsstring :=
  match prop v (str "@type") with
  | VStr ty =>
    if streqb ty (str "ImageObject") then
      List.find (λ url, isValidAssetUrl url || isLikelyImageUrl url)
        (omap (stringProp v) ["url"; "contentUrl"; "thumbnailUrl"]%string)
    else None
  | _ => None
  end.

(** The [image] case: the candidate URL. *)
Definition imageCandidate (v : value) : jsstring :=
  match v with
  | VStr s => extractUrlFromMarkdown s
  | VArr _ | VObj _ =>
    let fromImageObject :=
      match v with
      | VArr xs =>
        default []
          (head (omap (λ item, if isObject item then imageObjectUrl item
                               else None) xs))
      | _ => default [] (imageObjectUrl v)
      end in
    let fromWrapper :=
      match stringProp v "url" ∪ stringProp v "link" with
      | Some s => s
      | None =>
        match stringProp v "value" ∪ stringProp v "rawValue" with
        | Some s => extractUrlFromMarkdown s
        | None =>
          default fromImageObject
            (stringProp v "imageUrl" ∪ stringProp v "thumbnailUrl")
        end
      end in
    let linkedRow := prop v (str "linkedRow") in
    if isObject linkedRow then
      default fromWrapper
        (stringProp linkedRow "url" ∪ stringProp linkedRow "imageUrl")
    else fromWrapper
  | _ => []
  end.

(** The [file] case: the candidate URL. *)
Definition fileCandidate (v : value) : jsstring :=
  match v with
  | VStr s => extractUrlFromMarkdown s
  | VArr _ | VObj _ => default [] (stringProp v "url" ∪ stringProp v "link")
  | _ => []
  end.

(** The [link] case. *)
Definition linkUrl (v : value) : jsstring :=
  match v with
  | VArr _ | VObj _ => default [] (stringProp v "url")
  | VStr s => s
  | _ => []
  end.

(** The [enum] case: the label, with its fences and white space stripped. *)
Definition enumLabel (v : value) : jsstring :=
  let enumValue :=
    match v with
    | VArr _ | VObj _ => default [] (stringProp v "name" ∪ stringProp v "id")
    | VStr s => s
    | _ => []
    end in
  if nonEmpty enumValue then trim (stripFences enumValue) else enumValue.

(** The [enum] case: the label resolved against the cases of the field. *)
Definition coerceEnum (v : value) (field : Field) : option FieldDataEntry :=
  let enumValue := enumLabel v in
  let found :=
    match field_cases field with
    | Some cases =>
      if nonEmpty enumValue then
        option_map case_id
          (List.find (λ item, streqb (case_id item) enumValue) cases
           ∪ List.find (λ item, streqb (case_name item) enumValue) cases)
      else None
    | None => None
    end in
  match found with
  | Some i => Some {| entry_type := TEnum; entry_value := VStr i |}
  | None =>
    if nonEmpty enumValue
    then Some {| entry_type := TEnum; entry_value := VStr enumValue |}
    else None
  end.

Definition transformCodaValue (v : value) (field : Field)
    (codaColumnType : jsstring) (use12HourTime : bool)
    : option FieldDataEntry :=
  if isBlank v then emptyValue (field_type field)
  else
    match field_type field with
    | TNumber =>
      Some {| entry_type := TNumber; entry_value := coerceNumber v |}
    | TBoolean =>
      Some {| entry_type := TBoolean; entry_value := VBool (truthy v) |}
    | TDate =>
      match coerceDate v codaColumnType with
      | Some s => Some {| entry_type := TDate; entry_value := VStr s |}
      | None => None
      end
    | TFormattedText =>
      Some {| entry_type := TFormattedText;
              entry_value := VStr (coerceFormattedText v codaColumnType) |}
    | TString =>
      let formatted :=
        if streqb codaColumnType (str "time")
        then formatTimeValue v use12HourTime else None in
      match formatted with
      | Some ((_ :: _) as s) =>
        Some {| entry_type := TString; entry_value := VStr s |}
      | _ =>
        Some {| entry_type := TString; entry_value := VStr (coerceString v) |}
      end
    | TImage =>
      let imageUrl := imageCandidate v in
      if nonEmpty imageUrl
         && (isValidAssetUrl imageUrl || isLikelyImageUrl imageUrl)
      then Some {| entry_type := TImage; entry_value := VStr (trim imageUrl) |}
      else None
    | TFile =>
      let fileUrl := fileCandidate v in
      if nonEmpty fileUrl && isValidAssetUrl fileUrl
      then Some {| entry_type := TFile; entry_value := VStr (trim fileUrl) |}
      else None
    | TLink => Some {| entry_type := TLink; entry_value := VStr (linkUrl v) |}
    | TCollectionReference =>
      Some {| entry_type := TCollectionReference;
              entry_value := VStr (default [] (extractReferenceId v)) |}
    | TMultiCollectionReference =>
      Some {| entry_type := TMultiCollectionReference;
              entry_value := VArr (map VStr (extractReferenceIds v)) |}
    | TEnum => coerceEnum v field
    end.

End ValueTransformer.

(** ** The Enum Domain Synthesizer and the Batch Assembler *)

Section BatchAssembler.
Context `{Runtime}.

(** The label of one element, for [extractLookupValues]. *)
Definition lookupLabel (item : value) : option jsstring :=
  match item with
  | VStr s => Some s
  | VArr _ | VObj _ => stringProp item "name" ∪ stringProp item "value"
  | _ => None
  end.

Definition extractLookupValues (v : value) : list jsstring :=
  match v with
  | VArr xs => omap lookupLabel xs
  | _ => option_list (lookupLabel v)
  end.

(** What a falsy result of [extractSlugValue] is: [null] ([None]) or the empty
    string. *)
Definition extractSlugValue (v : value) : option jsstring :=
  match v with
  | VStr s => Some (trim (stripMarkdown s))
  | VArr _ | VObj _ =>
    match (if hasProp v (str "value") then stringProp v "value" else None) with
    | Some wrapped => Some (trim (stripMarkdown wrapped))
    | None =>
      let extracted := extractMeaningfulText v in
      if nonEmpty extracted then Some (trim (stripMarkdown extracted))
      else None
    end
  | _ => None
  end.

(** [Set.prototype.add]: insertion order, no duplicate. *)
Definition setAdd (s : list jsstring) (x : jsstring) : list jsstring :=
  if bool_decide (x ∈ s) then s else s ++ [x].

(** [item.replace(/^```|```$/g, empty).trim()]. *)
Definition cleanLabel (item : jsstring) : jsstring := trim (stripFences item).

(** The predicate of [fields.filter] that selects [lookupFields]. *)
Definition isLookupField (columns : list CodaColumnInput) (field : Field)
    : bool :=
  existsb
    (λ column,
       streqb (col_id column) (field_id field)
       && streqb (toLowerCase (fmt_type (col_format column))) (str "lookup")
       && bool_decide (field_type field = TEnum))
    columns.

(** [rows.forEach(row => lookupFields.forEach(field => ...))]: the value sets
    after the scan, from the sets [lookupValueSets] before it. *)
Definition scanLookupValues (lookupFields : list Field)
    (rows : list NormalizedRow)
    (lookupValueSets : gmap jsstring (list jsstring))
    : gmap jsstring (list jsstring) :=
  foldl
    (λ sets row,
       foldl
         (λ sets field,
            let v := getProp (row_values row) (field_id field) in
            if truthy v then
              match sets !! field_id field with
              | Some valueSet =>
                let values := extractLookupValues v in
                <[field_id field :=
                    foldl setAdd valueSet (map cleanLabel values)]> sets
              | None => sets
              end
            else sets)
         sets lookupFields)
    lookupValueSets rows.

(** The labels that the scan adds to the set of the field [fieldId] for one
    row: those of the cell of the row, cleaned; none when the cell is falsy. *)
Definition rowLabels (fieldId : jsstring) (row : NormalizedRow)
    : list jsstring :=
  let v := getProp (row_values row) fieldId in
  if truthy v then map cleanLabel (extractLookupValues v) else [].

(** The labels of all rows for the field [fieldId], in the order of the
    scan. *)
Definition lookupLabels (fieldId : jsstring) (rows : list NormalizedRow)
    : list jsstring :=
  flat_map (rowLabels fieldId) rows.

(** The specification of an ordered set: the elements of [l] that are not in
    [seen], each once, in the order of their first occurrence. *)
Fixpoint firstOccurrences (seen l : list jsstring) : list jsstring :=
  match l with
  | [] => []
  | x :: r =>
    if bool_decide (x ∈ seen) then firstOccurrences seen r
    else x :: firstOccurrences (seen ++ [x]) r
  end.

(** The fields after the synthesis: the [cases] of every lookup field are
    replaced by the labels found, the other fields are as they were. *)
Definition synthesizeEnumCases (columns : list CodaColumnInput)
    (rows : list NormalizedRow) (fields : list Field) : list Field :=
  let lookupFields := List.filter (isLookupField columns) fields in
  match lookupFields with
  | [] => fields
  | _ =>
    let empty : gmap jsstring (list jsstring) :=
      foldl (λ sets field, <[field_id field := []]> sets) ∅ lookupFields in
    let lookupValueSets := scanLookupValues lookupFields rows empty in
    map (λ field,
           if isLookupField columns field then
             let uniqueValues :=
               List.filter nonEmpty
                 (default [] (lookupValueSets !! field_id field)) in
             match field_cases field with
             | Some _ =>
               {| field_id := field_id field; field_name := field_name field;
                  field_type := field_type field;
                  field_cases :=
                    Some (map (λ v, {| case_id := v; case_name := v |})
                            uniqueValues);
                  field_collectionId := field_collectionId field;
                  field_allowedFileTypes := field_allowedFileTypes field |}
             | None => field
             end
           else field)
      fields
  end.

(** [new Map(fields.map((field) => [field.id, field]))]. *)
Definition fieldMapOf (fields : list Field) : gmap jsstring Field :=
  mapOfList (map (λ field, (field_id field, field)) fields).

(** [new Map(columns.map((column) =>
      [column.id, column.format.type.toLowerCase()]))]. *)
Definition columnTypeMapOf (columns : list CodaColumnInput)
    : gmap jsstring jsstring :=
  mapOfList
    (map (λ column,
            (col_id column, toLowerCase (fmt_type (col_format column))))
       columns).

(** [codaColumnTypeMap.get(fieldId) || "text"]. *)
Definition codaTypeOf (codaColumnTypeMap : gmap jsstring jsstring)
    (fieldId : jsstring) : jsstring :=
  match codaColumnTypeMap !! fieldId with
  | Some ((_ :: _) as t) => t
  | _ => str "text"
  end.

(** The loop over [Object.entries(row.values)] that fills [fieldData]. *)
Definition buildFieldData (fieldMap : gmap jsstring Field)
    (codaColumnTypeMap : gmap jsstring jsstring) (use12HourTime : bool)
    (values : list (jsstring * value)) : gmap jsstring FieldDataEntry :=
  foldl
    (λ fieldData '(fieldId, v),
       match fieldMap !! fieldId with
       | None => fieldData
       | Some field =>
         let codaType := codaTypeOf codaColumnTypeMap fieldId in
         match transformCodaValue v field codaType use12HourTime with
         | Some transformed => <[fieldId := transformed]> fieldData
         | None => fieldData
         end
       end)
    ∅ (entries values).

(** [!rowId]: the row has no id, or the empty text as its id. *)
Definition missingRowId (row : NormalizedRow) : bool :=
  match row_id row with
  | Some (_ :: _) => false
  | _ => true
  end.

(** [!slugValue]: the slug of the row is [null] or the empty text. *)
Definition missingSlug (slugFieldId : jsstring) (row : NormalizedRow) : bool :=
  match extractSlugValue (getProp (row_values row) slugFieldId) with
  | Some (_ :: _) => false
  | _ => true
  end.

(** The rows that the loop skips. *)
Definition rowSkipped (slugFieldId : jsstring) (row : NormalizedRow) : bool :=
  missingRowId row || missingSlug slugFieldId row.

(** What the loop over the rows has accumulated. *)
Record RowsState := {
  st_items : list Item;
  st_warnings : list jsstring;
  st_skippedCount : nat;
}.

(** The body of [rows.forEach((row, index) => ...)]. *)
Definition processRow (fieldMap : gmap jsstring Field)
    (codaColumnTypeMap : gmap jsstring jsstring) (slugFieldId : jsstring)
    (use12HourTime : bool) (st : RowsState) (index : nat) (row : NormalizedRow)
    : RowsState :=
  match row_id row with
  | Some ((_ :: _) as rowId) =>
    match extractSlugValue (getProp (row_values row) slugFieldId) with
    | Some ((_ :: _) as slugValue) =>
      {| st_items :=
           st_items st ++
           [{| item_id := rowId; item_slug := slugValue; item_draft := false;
               item_fieldData :=
                 buildFieldData fieldMap codaColumnTypeMap use12HourTime
                   (row_values row) |}];
         st_warnings := st_warnings st;
         st_skippedCount := st_skippedCount st |}
    | _ =>
      {| st_items := st_items st;
         st_warnings :=
           st_warnings st ++
           [str "Row " ++ rowId
            ++ str " is missing a slug value and was skipped."];
         st_skippedCount := st_skippedCount st + 1 |}
    end
  | _ =>
    {| st_items := st_items st;
       st_warnings :=
         st_warnings st ++
         [str "Row at index " ++ intToString (Z.of_nat index)
          ++ str " is missing a row id and was skipped."];
       st_skippedCount := st_skippedCount st + 1 |}
  end.

(** The item that [items.push] adds for a row that is kept. *)
Definition itemOfRow (fieldMap : gmap jsstring Field)
    (codaColumnTypeMap : gmap jsstring jsstring) (slugFieldId : jsstring)
    (use12HourTime : bool) (row : NormalizedRow) : option Item :=
  if rowSkipped slugFieldId row then None
  else
    match row_id row,
          extractSlugValue (getProp (row_values row) slugFieldId) with
    | Some rowId, Some slugValue =>
      Some {| item_id := rowId; item_slug := slugValue; item_draft := false;
              item_fieldData :=
                buildFieldData fieldMap codaColumnTypeMap use12HourTime
                  (row_values row) |}
    | _, _ => None
    end.

(** [rows.forEach] from the row at [index] on. *)
Fixpoint processRows (fieldMap : gmap jsstring Field)
    (codaColumnTypeMap : gmap jsstring jsstring) (slugFieldId : jsstring)
    (use12HourTime : bool) (st : RowsState) (index : nat)
    (rows : list NormalizedRow) : RowsState :=
  match rows with
  | [] => st
  | row :: rest =>
    processRows fieldMap codaColumnTypeMap slugFieldId use12HourTime
      (processRow fieldMap codaColumnTypeMap slugFieldId use12HourTime
         st index row)
      (S index) rest
  end.

Definition buildFieldsAndItems (columns : list CodaColumnInput)
    (rows : list NormalizedRow) (slugFieldId : jsstring)
    (referenceMap : gmap jsstring jsstring) (use12HourTime : bool)
    : MappingResult :=
  let mapped := map (mapColumn referenceMap) columns in
  let fieldWarnings := concat (map snd mapped) in
  let fields := synthesizeEnumCases columns rows (omap fst mapped) in
  let fieldMap := fieldMapOf fields in
  let codaColumnTypeMap := columnTypeMapOf columns in
  let st :=
    processRows fieldMap codaColumnTypeMap slugFieldId use12HourTime
      {| st_items := []; st_warnings := fieldWarnings; st_skippedCount := 0 |}
      0 rows in
  {| fields := fields; items := st_items st; warnings := st_warnings st;
     skippedCount := st_skippedCount st |}.

End BatchAssembler.

(** ** The Field Schema Merger ([mapping.ts]) and the field filter of
       [setCollectionFields] ([pack.ts]) *)

Definition mergeFieldsWithExistingFields
    (sourceFields existingFields : list Field) : list Field :=
  let existingFieldMap := fieldMapOf existingFields in
  map (λ sourceField,
         match existingFieldMap !! field_id sourceField with
         | Some existingField =>
           {| field_id := field_id sourceField;
              field_name := field_name existingField;
              field_type := field_type sourceField;
              field_cases := field_cases sourceField;
              field_collectionId := field_collectionId sourceField;
              field_allowedFileTypes := field_allowedFileTypes sourceField |}
         | None => sourceField
         end)
    sourceFields.

(** [compatibleFields] of [setCollectionFields]: the fields that are written
    to the collection. *)
Definition compatibleFields (fields : list Field) : list Field :=
  List.filter
    (λ field,
       negb (bool_decide (field_type field = TMultiCollectionReference)
             && negb (bool_decide (is_Some (field_collectionId field)))))
    fields.

(** ** The normalizers *)

(** A column as [JSON.parse] gives it: [id] and [name] are any values
    ([undefined] when absent), the format may be absent.  The [display] flag,
    which the mapping never reads, is left out. *)
Record RawColumn := {
  raw_id : value;
  raw_name : value;
  raw_format : option CodaColumnFormat;
}.

(** The properties of an array under its index keys. *)
Definition indexProps (xs : list value) : list (jsstring * value) :=
  imap (λ i x, (intToString (Z.of_nat i), x)) xs.

(** The own properties of a value that is used as a record. *)
Definition recordOf (v : value) : list (jsstring * value) :=
  match v with
  | VObj ps => ps
  | VArr xs => indexProps xs
  | _ => []
  end.

Section Normalizers.
Context `{Runtime}.

(** [x ?? y]. *)
Definition nullish (x y : value) : value :=
  match x with
  | VNull | VUndefined => y
  | _ => x
  end.

Definition normalizeColumn (column : RawColumn) : CodaColumnInput :=
  {| col_id := String_ (raw_id column);
     col_name := String_ (nullish (raw_name column) (raw_id column));
     col_format :=
       default {| fmt_type := str "text"; fmt_isArray := false;
                  fmt_tableId := None; fmt_options := None |}
         (raw_format column) |}.

Definition normalizeColumns (columns : list RawColumn)
    : list CodaColumnInput :=
  map normalizeColumn columns.

Definition resolveRowId (row : value) : option jsstring :=
  match prop row (str "id") with
  | VStr s => Some s
  | _ =>
    let wrapper := prop row (str "_id") in
    if isObject wrapper && hasProp wrapper (str "value")
    then Some (String_ (nullish (prop wrapper (str "value")) (VStr [])))
    else None
  end.

(** The callback of [rows.map] in [normalizeRows]. *)
Definition normalizeRow (row : value) : NormalizedRow :=
  if truthy row && isObject row then
    let id := resolveRowId row in
    let values := prop row (str "values") in
    if truthy values && isObject values
    then {| row_id := id; row_values := recordOf values |}
    else
      {| row_id := id;
         row_values :=
           List.filter
             (λ kv, negb (streqb kv.1 (str "id") || streqb kv.1 (str "_id")
                          || streqb kv.1 (str "values")))
             (recordOf row) |}
  else {| row_id := None; row_values := [] |}.

Definition normalizeRows (rows : list value) : list NormalizedRow :=
  map normalizeRow rows.

End Normalizers.

(** ** The pruning of [PushTableToCollection] ([pack.ts]) *)

(** [toRemove]: the ids of the collection that are not ids of the items
    pushed. *)
Definition itemsToRemove (existingItemIds : list jsstring)
    (items : list Item) : list jsstring :=
  let existingIds := foldl setAdd [] existingItemIds in
  let incomingIds :=
    foldl setAdd [] (List.filter nonEmpty (map item_id items)) in
  List.filter (λ id, negb (bool_decide (id ∈ incomingIds))) existingIds.

(** A column that is already in normal form, as a raw column. *)
Definition rawOfColumn (column : CodaColumnInput) : RawColumn :=
  {| raw_id := VStr (col_id column); raw_name := VStr (col_name column);
     raw_format := Some (col_format column) |}.

(** ** The push formulas ([pack.ts])

    What the formula hands to the Framer collection, and the counts and the
    warnings that it returns, from the parsed parameters, the fields that
    [getFields] returns and the item ids that [getItemIds] returns.  The
    connection, the collection lookup, the JSON parsing and their errors are
    left out, and so are the collection id, the collection name and the
    message of the result. *)

Record PushResult := {
  (** the argument of [collection.setFields] *)
  setFields : list Field;
  (** the argument of [removeItems], when it is called *)
  removeItems : option (list jsstring);
  (** the argument of [addItems], when it is called *)
  addItems : option (list Item);
  itemsAdded : nat;
  itemsSkipped : nat;
  fieldsSet : nat;
  resultWarnings : list jsstring;
}.

Section PushFormulas.
Context `{Runtime}.

Definition PushTableToCollection (slugFieldId : jsstring)
    (columnsInput : list RawColumn) (rowInput : list value)
    (referenceMapInput : option (list ReferenceMapEntry))
    (pruneMissing use12HourTime : bool)
    (existingFields : list Field) (existingItemIds : list jsstring)
    : PushResult :=
  let columns := normalizeColumns columnsInput in
  let rows := normalizeRows rowInput in
  let referenceMap := buildReferenceMap referenceMapInput in
  let mapping :=
    buildFieldsAndItems columns rows slugFieldId referenceMap use12HourTime in
  let mergedFields :=
    mergeFieldsWithExistingFields (fields mapping) existingFields in
  let toRemove := itemsToRemove existingItemIds (items mapping) in
  {| setFields := compatibleFields mergedFields;
     removeItems :=
       if pruneMissing && (0 <? length toRemove)%nat then Some toRemove
       else None;
     addItems :=
       if (0 <? length (items mapping))%nat then Some (items mapping)
       else None;
     itemsAdded := length (items mapping);
     itemsSkipped := skippedCount mapping;
     fieldsSet := length (compatibleFields mergedFields);
     resultWarnings := warnings mapping |}.

(** [PushRowToCollection] pushes the one row and removes nothing. *)
Definition PushRowToCollection (slugFieldId : jsstring)
    (columnsInput : list RawColumn) (rowInput : value)
    (referenceMapInput : option (list ReferenceMapEntry))
    (use12HourTime : bool) (existingFields : list Field) : PushResult :=
  PushTableToCollection slugFieldId columnsInput [rowInput] referenceMapInput
    false use12HourTime existingFields [].

End PushFormulas.

(** ** The shape of a field

    What the type of a field says about its other attributes; the fields of
    a result are shown to have this shape. *)
Definition wellShaped (f : Field) : Prop :=
  field_type f ≠ TCollectionReference
  ∧ (is_Some (field_cases f) ↔ field_type f = TEnum)
  ∧ (is_Some (field_collectionId f) ↔ field_type f = TMultiCollectionReference)
  ∧ field_collectionId f ≠ Some []
  ∧ field_allowedFileTypes f
    = if bool_decide (field_type f = TFile) then Some [str "*"] else None.

(** ** A runtime for closed examples

    Its case mapping is the ASCII one.  Numbers and JSON print as the empty
    text, no text parses as a date and Markdown is left as it is: the examples
    reach none of these. *)
Definition asciiRuntime : Runtime :=
  {| toLowerCase := map asciiLower;
     toLowerCase_ascii := λ s _, eq_refl;
     numberToString := λ _, [];
     newDate := λ _, None;
     jsonStringify := λ _, [];
     markdownToSanitizedHtml := λ markdown, markdown |}.

(** ** Inputs of the closed examples *)

Definition exampleField (i n : string) (t : FieldType)
    (c : option jsstring) : Field :=
  {| field_id := str i; field_name := str n; field_type := t;
     field_cases := None; field_collectionId := c;
     field_allowedFileTypes := None |}.

Definition exampleColumn (i n t : string) (isArray : bool)
    (tableId : option jsstring) : CodaColumnInput :=
  {| col_id := str i; col_name := str n;
     col_format := {| fmt_type := str t; fmt_isArray := isArray;
                      fmt_tableId := tableId; fmt_options := None |} |}.

Definition exampleRow (i : option jsstring) (values : list (string * value))
    : NormalizedRow :=
  {| row_id := i; row_values := map (λ kv, (str kv.1, kv.2)) values |}.

(** * Properties *)

(** ** Maps built from lists *)

Lemma mapOfList_snoc {A} (pairs : list (jsstring * A)) k v :
  mapOfList (pairs ++ [(k, v)]) = <[k := v]> (mapOfList pairs).
Proof. unfold mapOfList. by rewrite rev_app_distr. Qed.

Lemma mapOfList_lookup {A} (key : A → jsstring) (l : list A) (k : jsstring) :
  mapOfList (map (λ x, (key x, x)) l) !! k = last (filter (λ x, key x = k) l).
Proof.
  induction l as [|x l IH] using rev_ind; [done|].
  rewrite List.map_app. simpl.
  rewrite mapOfList_snoc, filter_app, lookup_insert.
  rewrite filter_cons, filter_nil.
  case_decide.
  - by rewrite last_snoc.
  - by rewrite app_nil_r.
Qed.

Lemma fieldMapOf_lookup (fs : list Field) (k : jsstring) :
  fieldMapOf fs !! k = last (filter (λ f, field_id f = k) fs).
Proof. apply (mapOfList_lookup field_id). Qed.

Lemma last_Some_elem_of {A} (l : list A) (x : A) : last l = Some x → x ∈ l.
Proof.
  intros Hl. destruct (last_Some l x) as [[l' ->] _]; [done|].
  set_solver.
Qed.

Lemma fieldMapOf_Some (fs : list Field) (k : jsstring) (f : Field) :
  fieldMapOf fs !! k = Some f → f ∈ fs ∧ field_id f = k.
Proof.
  rewrite fieldMapOf_lookup. intros Hl%last_Some_elem_of.
  by apply list_elem_of_filter in Hl as [? ?].
Qed.

Lemma fieldMapOf_None (fs : list Field) (k : jsstring) :
  fieldMapOf fs !! k = None ↔ ∀ f, f ∈ fs → field_id f ≠ k.
Proof.
  rewrite fieldMapOf_lookup, last_None. split.
  - intros Hnil f Hf Hk.
    assert (f ∈ filter (λ f, field_id f = k) fs) as Hin
      by (by apply list_elem_of_filter).
    rewrite Hnil in Hin. by apply not_elem_of_nil in Hin.
  - intros Hno. induction fs as [|f fs IH]; [done|].
    rewrite filter_cons. case_decide as Hk.
    + exfalso. eapply Hno; [left|done].
    + apply IH. intros g Hg. apply Hno. by right.
Qed.

(** ** The Field Schema Merger *)

(** What [mergeFieldsWithExistingFields] makes of one field. *)
Lemma merge_lookup (sourceFields existingFields : list Field) (i : nat) :
  mergeFieldsWithExistingFields sourceFields existingFields !! i =
  (λ s, match fieldMapOf existingFields !! field_id s with
        | Some e =>
          {| field_id := field_id s; field_name := field_name e;
             field_type := field_type s; field_cases := field_cases s;
             field_collectionId := field_collectionId s;
             field_allowedFileTypes := field_allowedFileTypes s |}
        | None => s
        end) <$> sourceFields !! i.
Proof. unfold mergeFieldsWithExistingFields. by rewrite list_lookup_fmap. Qed.

Lemma merge_ids (sourceFields existingFields : list Field) :
  map field_id (mergeFieldsWithExistingFields sourceFields existingFields)
  = map field_id sourceFields.
Proof.
  unfold mergeFieldsWithExistingFields. rewrite List.map_map.
  apply map_ext. intros s. by destruct (_ !! _).
Qed.

(** C10: the merged list has one field per source field, in the order of the
    source list and with its ids; a remote field whose id is the id of no
    source field is not in the merged list. *)
Theorem merge_one_field_per_source_field
    (sourceFields existingFields : list Field) :
  length (mergeFieldsWithExistingFields sourceFields existingFields)
  = length sourceFields
  ∧ map field_id (mergeFieldsWithExistingFields sourceFields existingFields)
    = map field_id sourceFields
  ∧ (∀ i s, sourceFields !! i = Some s →
       ∃ m, mergeFieldsWithExistingFields sourceFields existingFields !! i
            = Some m ∧ field_id m = field_id s)
  ∧ (∀ e, e ∈ existingFields →
       (∀ s, s ∈ sourceFields → field_id s ≠ field_id e) →
       ∀ m, m ∈ mergeFieldsWithExistingFields sourceFields existingFields →
            field_id m ≠ field_id e).
Proof.
  split_and!.
  - unfold mergeFieldsWithExistingFields. by rewrite length_map.
  - apply merge_ids.
  - intros i s Hs. rewrite merge_lookup, Hs. simpl.
    eexists; split; [done|].
    by destruct (fieldMapOf existingFields !! field_id s).
  - intros e _ Hno m Hm Hid.
    assert (field_id m ∈ map field_id sourceFields) as Hin.
    { rewrite <- (merge_ids sourceFields existingFields).
      apply list_elem_of_fmap. eauto. }
    apply list_elem_of_fmap in Hin as (s & Hs & Hin).
    apply (Hno s Hin). congruence.
Qed.

Lemma merge_one_field_per_source_field_witness :
  mergeFieldsWithExistingFields
    [exampleField "a" "Local A" TString None;
     exampleField "b" "Local B" TNumber None]
    [exampleField "z" "Remote Z" TString None;
     exampleField "b" "Remote B" TString None]
  = [exampleField "a" "Local A" TString None;
     exampleField "b" "Remote B" TNumber None]
  ∧ length (mergeFieldsWithExistingFields
       [exampleField "a" "Local A" TString None;
        exampleField "b" "Local B" TNumber None]
       [exampleField "z" "Remote Z" TString None;
        exampleField "b" "Remote B" TString None]) = 2%nat.
Proof.
  split; [by vm_compute|].
  pose proof (merge_one_field_per_source_field
       [exampleField "a" "Local A" TString None;
        exampleField "b" "Local B" TNumber None]
       [exampleField "z" "Remote Z" TString None;
        exampleField "b" "Remote B" TString None]) as [Hlen _].
  exact Hlen.
Defined.

(** C8: a local field with a remote field of its id keeps its id, type,
    cases, collectionId and allowed file types, and takes the name of that
    remote field (of the last one listed, when several remote fields have the
    id); a local field without a remote field of its id is returned as it
    is. *)
Theorem merge_overwrites_only_the_name
    (sourceFields existingFields : list Field) (i : nat) (s : Field) :
  sourceFields !! i = Some s →
  ∃ m, mergeFieldsWithExistingFields sourceFields existingFields !! i = Some m
    ∧ field_id m = field_id s
    ∧ field_type m = field_type s
    ∧ field_cases m = field_cases s
    ∧ field_collectionId m = field_collectionId s
    ∧ field_allowedFileTypes m = field_allowedFileTypes s
    ∧ (∀ e, last (filter (λ e, field_id e = field_id s) existingFields)
            = Some e → field_name m = field_name e)
    ∧ ((∃ e, e ∈ existingFields ∧ field_id e = field_id s) →
       ∃ e, e ∈ existingFields ∧ field_id e = field_id s
            ∧ field_name m = field_name e)
    ∧ (NoDup (map field_id existingFields) →
       ∀ e, e ∈ existingFields → field_id e = field_id s →
            field_name m = field_name e)
    ∧ ((∀ e, e ∈ existingFields → field_id e ≠ field_id s) → m = s).
Proof.
  intros Hs. rewrite merge_lookup, Hs. simpl. eexists; split; [done|].
  pose proof (fieldMapOf_lookup existingFields (field_id s)) as Hlast.
  destruct (fieldMapOf existingFields !! field_id s) as [e|] eqn:He; simpl.
  - apply fieldMapOf_Some in He as [Hin Hid].
    split_and!; try done.
    + intros e' He'. congruence.
    + intros _. by exists e.
    + intros Hnd e' Hin' Hid'.
      f_equal. symmetry.
      apply list_elem_of_lookup in Hin as [j Hj].
      apply list_elem_of_lookup in Hin' as [j' Hj'].
      assert (j = j') as ->; [|congruence].
      apply (NoDup_lookup _ j j' (field_id s) Hnd).
      * change (map field_id existingFields) with (field_id <$> existingFields).
        rewrite list_lookup_fmap, Hj. simpl. by f_equal.
      * change (map field_id existingFields) with (field_id <$> existingFields).
        rewrite list_lookup_fmap, Hj'. simpl. by f_equal.
    + intros Hno. by destruct (Hno e Hin).
  - pose proof (proj1 (fieldMapOf_None _ _) He) as Hno. clear He.
    split_and!; try done.
    + intros e He'. congruence.
    + intros (e & Hin & Hid). by destruct (Hno e Hin).
    + intros _ e Hin Hid. by destruct (Hno e Hin).
Qed.

Lemma merge_overwrites_only_the_name_witness :
  ∃ m, mergeFieldsWithExistingFields
         [exampleField "a" "Local A" TString None;
          exampleField "b" "Local B" TMultiCollectionReference (Some (str "coll"))]
         [exampleField "b" "Remote B" TString None] !! 1%nat = Some m
    ∧ field_type m = TMultiCollectionReference
    ∧ field_collectionId m = Some (str "coll")
    ∧ field_name m = str "Remote B".
Proof.
  destruct (merge_overwrites_only_the_name
       [exampleField "a" "Local A" TString None;
        exampleField "b" "Local B" TMultiCollectionReference (Some (str "coll"))]
       [exampleField "b" "Remote B" TString None] 1
       (exampleField "b" "Local B" TMultiCollectionReference (Some (str "coll")))
       eq_refl)
    as (m & Hm & _ & Ht & _ & Hc & _ & Hn & _).
  exists m. split_and!; [done|done|done|].
  by apply (Hn (exampleField "b" "Remote B" TString None)).
Defined.

(** ** The field filter of [setCollectionFields] *)




(** ** The Type Mapper *)

Lemma streqb_true (a b : jsstring) : streqb a b = true ↔ a = b.
Proof. unfold streqb. apply bool_decide_eq_true. Qed.

Lemma streqb_false (a b : jsstring) : streqb a b = false ↔ a ≠ b.
Proof. unfold streqb. apply bool_decide_eq_false. Qed.

Lemma streqb_refl (a : jsstring) : streqb a a = true.
Proof. by apply streqb_true. Qed.

Lemma nonEmpty_true (s : jsstring) : nonEmpty s = true ↔ s ≠ [].
Proof. by destruct s. Qed.

Lemma nonEmpty_false (s : jsstring) : nonEmpty s = false ↔ s = [].
Proof. by destruct s. Qed.

Section MapperProperties.
Context `{Runtime}.

(** C7: a column that is not a button column and whose lower-cased name or
    id contains "image" or "graphic" maps to an image field, whatever its
    declared type; so does the column named "Image" of declared type
    "text". *)
Theorem name_heuristic_forces_image :
  (∀ column : CodaColumnInput,
     toLowerCase (fmt_type (col_format column)) ≠ str "button" →
     includes (toLowerCase (col_name column)) (str "image") = true
     ∨ includes (toLowerCase (col_name column)) (str "graphic") = true
     ∨ includes (toLowerCase (col_id column)) (str "image") = true
     ∨ includes (toLowerCase (col_id column)) (str "graphic") = true →
     mapCodaTypeToFramerType column = Some (plainField column TImage))
  ∧ (∀ (id : jsstring) (isArray : bool) (tableId : option jsstring)
       (options : option ColumnOptions),
       mapCodaTypeToFramerType
         {| col_id := id; col_name := str "Image";
            col_format := {| fmt_type := str "text"; fmt_isArray := isArray;
                             fmt_tableId := tableId;
                             fmt_options := options |} |}
       = Some {| field_id := id; field_name := str "Image";
                 field_type := TImage; field_cases := None;
                 field_collectionId := None;
                 field_allowedFileTypes := None |}).
Proof.
  assert (∀ column : CodaColumnInput,
     toLowerCase (fmt_type (col_format column)) ≠ str "button" →
     includes (toLowerCase (col_name column)) (str "image") = true
     ∨ includes (toLowerCase (col_name column)) (str "graphic") = true
     ∨ includes (toLowerCase (col_id column)) (str "image") = true
     ∨ includes (toLowerCase (col_id column)) (str "graphic") = true →
     mapCodaTypeToFramerType column = Some (plainField column TImage))
    as Hgeneral.
  { intros column Hbutton Hname. unfold mapCodaTypeToFramerType.
    replace (typeIs (toLowerCase (fmt_type (col_format column))) "button")
      with false by (symmetry; by apply streqb_false).
    destruct Hname as [-> | [-> | [-> | ->]]];
      by rewrite ?orb_true_r, ?orb_true_l. }
  split; [exact Hgeneral|].
  intros id isArray tableId options. rewrite Hgeneral; [done| |]; simpl.
  - by rewrite (toLowerCase_ascii (str "text")).
  - left. by rewrite (toLowerCase_ascii (str "Image")).
Qed.

End MapperProperties.

Lemma name_heuristic_forces_image_witness :
  @mapCodaTypeToFramerType asciiRuntime
    {| col_id := str "c-7"; col_name := str "Hero GRAPHIC";
       col_format := {| fmt_type := str "Number"; fmt_isArray := false;
                        fmt_tableId := None; fmt_options := None |} |}
  = Some (exampleField "c-7" "Hero GRAPHIC" TImage None).
Proof.
  apply (proj1 (@name_heuristic_forces_image asciiRuntime)).
  - by vm_compute.
  - right; left. by vm_compute.
Defined.

(** ** The reference override *)

Lemma buildReferenceMap_nonEmpty (es : option (list ReferenceMapEntry))
    (t c : jsstring) :
  buildReferenceMap es !! t = Some c → t ≠ [] ∧ c ≠ [].
Proof.
  destruct es as [es|]; simpl; [|by rewrite lookup_empty].
  induction es as [|e es IH] using rev_ind; simpl; [by rewrite lookup_empty|].
  rewrite foldl_app. simpl.
  destruct (nonEmpty (codaTableId e) && nonEmpty (framerCollectionId e))
    eqn:Hne; [|done].
  apply andb_true_iff in Hne as [Ht%nonEmpty_true Hc%nonEmpty_true].
  rewrite lookup_insert. case_decide; [|done]. intros [= <-]. by subst.
Qed.

Section OverrideProperties.
Context `{Runtime}.

Lemma isLookupField_enum (columns : list CodaColumnInput) (f : Field) :
  isLookupField columns f = true → field_type f = TEnum.
Proof.
  unfold isLookupField. intros (c & _ & Hc)%existsb_exists.
  apply andb_true_iff in Hc as [_ Hc]. by apply bool_decide_eq_true in Hc.
Qed.

(** The synthesis keeps the fields that are not lookup fields. *)
Lemma synthesizeEnumCases_other (columns : list CodaColumnInput)
    (rows : list NormalizedRow) (fs : list Field) (f : Field) :
  f ∈ fs → isLookupField columns f = false →
  f ∈ synthesizeEnumCases columns rows fs.
Proof.
  intros Hf Hno. unfold synthesizeEnumCases.
  destruct (List.filter _ fs); [done|].
  apply list_elem_of_fmap. exists f. by rewrite Hno.
Qed.

Lemma synthesizeEnumCases_not_enum (columns : list CodaColumnInput)
    (rows : list NormalizedRow) (fs : list Field) (f : Field) :
  f ∈ fs → field_type f ≠ TEnum → f ∈ synthesizeEnumCases columns rows fs.
Proof.
  intros Hf Ht. apply synthesizeEnumCases_other; [done|].
  apply not_true_is_false. by intros ?%isLookupField_enum.
Qed.

(** The rows only add warnings behind those already there. *)
Lemma processRows_warnings_prefix fieldMap typeMap slugFieldId use12HourTime
    (rows : list NormalizedRow) (st : RowsState) (index : nat) :
  st_warnings st `prefix_of`
  st_warnings (processRows fieldMap typeMap slugFieldId use12HourTime
                 st index rows).
Proof.
  revert st index. induction rows as [|row rows IH]; intros st index; [done|].
  simpl. etrans; [|apply IH].
  unfold processRow.
  destruct (row_id row) as [[|]|]; simpl; try by apply prefix_app_r.
  destruct (extractSlugValue _) as [[|]|]; simpl; try done;
    by apply prefix_app_r.
Qed.

Lemma mapColumn_elem_of_fields (columns : list CodaColumnInput)
    (rows : list NormalizedRow) (slugFieldId : jsstring)
    (referenceMap : gmap jsstring jsstring) (use12HourTime : bool)
    (column : CodaColumnInput) (f : Field) :
  column ∈ columns → (mapColumn referenceMap column).1 = Some f →
  field_type f ≠ TEnum →
  f ∈ fields (buildFieldsAndItems columns rows slugFieldId referenceMap
                use12HourTime).
Proof.
  intros Hc Hf Ht. unfold buildFieldsAndItems; simpl.
  apply synthesizeEnumCases_not_enum; [|done].
  apply list_elem_of_omap. exists (mapColumn referenceMap column).
  split; [|done]. apply list_elem_of_fmap. eauto.
Qed.

Lemma mapColumn_warning_recorded (columns : list CodaColumnInput)
    (rows : list NormalizedRow) (slugFieldId : jsstring)
    (referenceMap : gmap jsstring jsstring) (use12HourTime : bool)
    (column : CodaColumnInput) (w : jsstring) :
  column ∈ columns → w ∈ (mapColumn referenceMap column).2 →
  w ∈ warnings (buildFieldsAndItems columns rows slugFieldId referenceMap
                  use12HourTime).
Proof.
  intros Hc Hw. unfold buildFieldsAndItems; simpl.
  eapply elem_of_prefix; [|apply processRows_warnings_prefix]. simpl.
  apply list_elem_of_In, in_concat. exists (mapColumn referenceMap column).2.
  split; [|by apply list_elem_of_In].
  apply in_map, in_map. by apply list_elem_of_In.
Qed.

(** C6: a lookup column with [isArray] that the Type Mapper maps to a string
    field.  When its table id resolves in the Reference Map, its field is
    the multiCollectionReference field with the resolved collection id, and
    no warning is pushed for it; when its table id is there (a string that
    is not empty) and does not resolve, its field stays the string field and
    the warning is recorded. *)
Theorem lookup_array_reference_override
    (columns : list CodaColumnInput) (rows : list NormalizedRow)
    (slugFieldId : jsstring) (entries : option (list ReferenceMapEntry))
    (use12HourTime : bool) (column : CodaColumnInput) (mappedField : Field) :
  column ∈ columns →
  toLowerCase (fmt_type (col_format column)) = str "lookup" →
  fmt_isArray (col_format column) = true →
  mapCodaTypeToFramerType column = Some mappedField →
  field_type mappedField = TString →
  let referenceMap := buildReferenceMap entries in
  let result :=
    buildFieldsAndItems columns rows slugFieldId referenceMap use12HourTime in
  (∀ tableId linked,
     fmt_tableId (col_format column) = Some tableId →
     referenceMap !! tableId = Some linked →
     let field :=
       {| field_id := col_id column; field_name := col_name column;
          field_type := TMultiCollectionReference; field_cases := None;
          field_collectionId := Some linked;
          field_allowedFileTypes := None |} in
     mapColumn referenceMap column = (Some field, []) ∧ field ∈ fields result)
  ∧ (∀ tableId,
       fmt_tableId (col_format column) = Some tableId → tableId ≠ [] →
       referenceMap !! tableId = None →
       let warning :=
         str "No Framer collection mapping found for lookup field "
         ++ [dquote] ++ col_name column ++ [dquote]
         ++ str " (Coda table " ++ tableId ++ str ")." in
       mapColumn referenceMap column = (Some mappedField, [warning])
       ∧ mappedField ∈ fields result
       ∧ warning ∈ warnings result).
Proof.
  intros Hc Hlookup Harr Hmap Hty referenceMap result.
  assert (mapColumn referenceMap column =
     match (match fmt_tableId (col_format column) with
            | Some ((_ :: _) as r) => referenceMap !! r
            | _ => None
            end) with
     | Some ((_ :: _) as linked) =>
       (Some {| field_id := col_id column; field_name := col_name column;
                field_type := TMultiCollectionReference;
                field_cases := None; field_collectionId := Some linked;
                field_allowedFileTypes := None |}, [])
     | _ =>
       match fmt_tableId (col_format column) with
       | Some ((_ :: _) as r) =>
         (Some mappedField,
          [str "No Framer collection mapping found for lookup field "
           ++ [dquote] ++ col_name column ++ [dquote]
           ++ str " (Coda table " ++ r ++ str ")."])
       | _ => (Some mappedField, [])
       end
     end) as Hcol.
  { unfold mapColumn. rewrite Hmap, Hlookup, Harr, Hty.
    by rewrite bool_decide_eq_true_2, streqb_refl. }
  split.
  - intros tableId linked Htable Hlinked field.
    destruct (buildReferenceMap_nonEmpty _ _ _ Hlinked) as [Ht Hl].
    assert (mapColumn referenceMap column = (Some field, [])) as Hfield.
    { rewrite Hcol, Htable. destruct tableId; [done|].
      fold referenceMap in Hlinked. rewrite Hlinked. by destruct linked. }
    split; [done|].
    apply (mapColumn_elem_of_fields _ _ _ _ _ column); [done| |done].
    by rewrite Hfield.
  - intros tableId Htable Ht Hnone warning.
    assert (mapColumn referenceMap column = (Some mappedField, [warning]))
      as Hfield.
    { rewrite Hcol, Htable. destruct tableId; [done|]. by rewrite Hnone. }
    split_and!; [done| |].
    + apply (mapColumn_elem_of_fields _ _ _ _ _ column); [done| |].
      * by rewrite Hfield.
      * by rewrite Hty.
    + apply (mapColumn_warning_recorded _ _ _ _ _ column); [done|].
      rewrite Hfield. simpl. by left.
Qed.

End OverrideProperties.

Lemma lookup_array_reference_override_witness :
  let columns :=
    [exampleColumn "c1" "Title" "text" false None;
     exampleColumn "c3" "Authors" "Lookup" true (Some (str "grid-1"));
     exampleColumn "c4" "Tags" "lookup" true (Some (str "grid-2"))] in
  let entries :=
    Some [{| codaTableId := str "grid-1";
             framerCollectionId := str "coll-9" |}] in
  let result :=
    @buildFieldsAndItems asciiRuntime columns [] (str "c1")
      (buildReferenceMap entries) false in
  exampleField "c3" "Authors" TMultiCollectionReference (Some (str "coll-9"))
    ∈ fields result
  ∧ exampleField "c4" "Tags" TString None ∈ fields result
  ∧ str "No Framer collection mapping found for lookup field "
      ++ [dquote] ++ str "Tags" ++ [dquote] ++ str " (Coda table grid-2)."
    ∈ warnings result.
Proof.
  intros columns entries result. split.
  - refine (proj2 (proj1 (@lookup_array_reference_override asciiRuntime
      columns [] (str "c1") entries false
      (exampleColumn "c3" "Authors" "Lookup" true (Some (str "grid-1")))
      (exampleField "c3" "Authors" TString None) _ _ _ _ _)
      (str "grid-1") (str "coll-9") _ _)); try by vm_compute.
    right; left.
  - refine (proj2 (proj2 (@lookup_array_reference_override asciiRuntime
      columns [] (str "c1") entries false
      (exampleColumn "c4" "Tags" "lookup" true (Some (str "grid-2")))
      (exampleField "c4" "Tags" TString None) _ _ _ _ _)
      (str "grid-2") _ _ _)); try by vm_compute.
    right; right; left.
Defined.

(** ** The Value Transformer and the field data *)

Section TransformerProperties.
Context `{Runtime}.

(** The entry of a value carries the type of the field. *)
Lemma transformCodaValue_type (v : value) (field : Field)
    (codaColumnType : jsstring) (use12HourTime : bool) (e : FieldDataEntry) :
  transformCodaValue v field codaColumnType use12HourTime = Some e →
  entry_type e = field_type field.
Proof.
  unfold transformCodaValue, emptyValue, coerceEnum.
  intros He. repeat case_match; by simplify_eq.
Qed.


Lemma assoc_Some_elem_of {A} (k : jsstring) (ps : list (jsstring * A)) (v : A) :
  assoc k ps = Some v → (k, v) ∈ ps.
Proof.
  induction ps as [|[k' v'] ps IH]; [done|]. simpl.
  destruct (streqb k k') eqn:Hk.
  - apply streqb_true in Hk as ->. intros [= ->]. by left.
  - intros ?. right. by apply IH.
Qed.

Lemma assoc_None {A} (k : jsstring) (ps : list (jsstring * A)) :
  assoc k ps = None ↔ k ∉ map fst ps.
Proof.
  induction ps as [|[k' v'] ps IH]; simpl.
  - split; [intros _; by apply not_elem_of_nil|done].
  - rewrite not_elem_of_cons. destruct (streqb k k') eqn:Hk.
    + apply streqb_true in Hk. split; [done|]. by intros [? _].
    + apply streqb_false in Hk. rewrite IH. tauto.
Qed.

Lemma assoc_filter_ne {A} (k k' : jsstring) (ps : list (jsstring * A)) :
  k ≠ k' →
  assoc k (List.filter (λ kv, negb (streqb kv.1 k')) ps) = assoc k ps.
Proof.
  intros Hk. induction ps as [|[k0 v0] ps IH]; [done|]. simpl.
  destruct (streqb k0 k') eqn:H0; simpl.
  - apply streqb_true in H0 as ->.
    by replace (streqb k k') with false by (symmetry; by apply streqb_false).
  - by rewrite IH.
Qed.

Lemma entries_assoc {A} (k : jsstring) (ps : list (jsstring * A)) :
  assoc k (entries ps) = assoc k ps.
Proof.
  induction ps as [|[k' v'] ps IH]; [done|]. simpl.
  destruct (streqb k k') eqn:Hk; [done|].
  apply streqb_false in Hk. by rewrite assoc_filter_ne.
Qed.

Lemma entries_keys_NoDup {A} (ps : list (jsstring * A)) :
  NoDup (map fst (entries ps)).
Proof.
  induction ps as [|[k v] ps IH]; simpl; [constructor|].
  constructor.
  - intros (kv & Hk & Hin%list_elem_of_In%filter_In)%list_elem_of_fmap.
    destruct Hin as [_ Hne]. apply negb_true_iff, streqb_false in Hne.
    congruence.
  - clear -IH. induction (entries ps) as [|[k0 v0] l IHl]; simpl; [constructor|].
    apply NoDup_cons in IH as [Hnotin Hnd].
    destruct (negb _); simpl; [|by apply IHl].
    constructor; [|by apply IHl].
    intros (kv & Hk & Hin%list_elem_of_In%filter_In)%list_elem_of_fmap.
    apply Hnotin. apply list_elem_of_fmap. exists kv.
    split; [done|]. apply list_elem_of_In. tauto.
Qed.

(** The field data hold, for a key of the row that is the id of a field, the
    entry of the cell, and nothing else. *)
Lemma buildFieldData_lookup (fieldMap : gmap jsstring Field)
    (codaColumnTypeMap : gmap jsstring jsstring) (use12HourTime : bool)
    (values : list (jsstring * value)) (k : jsstring) :
  buildFieldData fieldMap codaColumnTypeMap use12HourTime values !! k =
  match assoc k values, fieldMap !! k with
  | Some v, Some field =>
    transformCodaValue v field (codaTypeOf codaColumnTypeMap k) use12HourTime
  | _, _ => None
  end.
Proof.
  unfold buildFieldData. rewrite <- (entries_assoc k values).
  pose proof (entries_keys_NoDup values) as Hnd.
  assert (∀ (l : list (jsstring * value)) (m : gmap jsstring FieldDataEntry),
    NoDup (map fst l) →
    foldl
      (λ fieldData '(fieldId, v),
         match fieldMap !! fieldId with
         | None => fieldData
         | Some field =>
           match transformCodaValue v field
                   (codaTypeOf codaColumnTypeMap fieldId) use12HourTime with
           | Some transformed => <[fieldId := transformed]> fieldData
           | None => fieldData
           end
         end) m l !! k =
    match assoc k l, fieldMap !! k with
    | Some v, Some field =>
      match transformCodaValue v field (codaTypeOf codaColumnTypeMap k)
              use12HourTime with
      | Some e => Some e
      | None => m !! k
      end
    | _, _ => m !! k
    end) as Hfold.
  { clear. intros l. induction l as [|[k0 v0] l IH]; intros m Hnd; [done|].
    apply NoDup_cons in Hnd as [Hnotin Hnd]. simpl. rewrite IH by done.
    destruct (streqb k k0) eqn:Hk.
    - apply streqb_true in Hk as ->.
      replace (assoc k0 l) with (@None value)
        by (symmetry; by apply assoc_None).
      destruct (fieldMap !! k0) as [f|]; [|done].
      destruct (transformCodaValue v0 f _ use12HourTime); [|done].
      by rewrite lookup_insert_eq.
    - apply streqb_false in Hk.
      assert (∀ m' : gmap jsstring FieldDataEntry,
        m' !! k = m !! k →
        match assoc k l, fieldMap !! k with
        | Some v, Some field =>
          match transformCodaValue v field (codaTypeOf codaColumnTypeMap k)
                  use12HourTime with
          | Some e => Some e
          | None => m' !! k
          end
        | _, _ => m' !! k
        end =
        match assoc k l, fieldMap !! k with
        | Some v, Some field =>
          match transformCodaValue v field (codaTypeOf codaColumnTypeMap k)
                  use12HourTime with
          | Some e => Some e
          | None => m !! k
          end
        | _, _ => m !! k
        end) as Hsame by (by intros m' ->).
      apply Hsame. destruct (fieldMap !! k0) as [f|]; [|done].
      destruct (transformCodaValue v0 f _ use12HourTime); [|done].
      by rewrite lookup_insert_ne. }
  rewrite Hfold by done. rewrite lookup_empty.
  destruct (assoc k (entries values)); [|done].
  destruct (fieldMap !! k); [|done]. by destruct (transformCodaValue _ _ _ _).
Qed.

End TransformerProperties.

(** ** The Batch Assembler: the loop over the rows *)

Section RowProperties.
Context `{Runtime}.
Context (fieldMap : gmap jsstring Field).
Context (codaColumnTypeMap : gmap jsstring jsstring).
Context (slugFieldId : jsstring) (use12HourTime : bool).

Local Abbreviation processRow' :=
  (processRow fieldMap codaColumnTypeMap slugFieldId use12HourTime).
Local Abbreviation processRows' :=
  (processRows fieldMap codaColumnTypeMap slugFieldId use12HourTime).
Local Abbreviation itemOfRow' :=
  (itemOfRow fieldMap codaColumnTypeMap slugFieldId use12HourTime).

Lemma processRow_missing_id (st : RowsState) (index : nat)
    (row : NormalizedRow) :
  missingRowId row = true →
  processRow' st index row =
  {| st_items := st_items st;
     st_warnings :=
       st_warnings st ++
       [str "Row at index " ++ intToString (Z.of_nat index)
        ++ str " is missing a row id and was skipped."];
     st_skippedCount := st_skippedCount st + 1 |}.
Proof.
  unfold missingRowId, processRow. by destruct (row_id row) as [[|]|].
Qed.

Lemma processRow_missing_slug (st : RowsState) (index : nat)
    (row : NormalizedRow) (rowId : jsstring) :
  row_id row = Some rowId → rowId ≠ [] → missingSlug slugFieldId row = true →
  processRow' st index row =
  {| st_items := st_items st;
     st_warnings :=
       st_warnings st ++
       [str "Row " ++ rowId
        ++ str " is missing a slug value and was skipped."];
     st_skippedCount := st_skippedCount st + 1 |}.
Proof.
  unfold missingSlug, processRow. intros -> Hid.
  destruct rowId; [done|].
  by destruct (extractSlugValue _) as [[|]|].
Qed.

Lemma processRow_kept (st : RowsState) (index : nat) (row : NormalizedRow) :
  rowSkipped slugFieldId row = false →
  ∃ rowId slugValue,
    row_id row = Some rowId ∧ rowId ≠ []
    ∧ extractSlugValue (getProp (row_values row) slugFieldId) = Some slugValue
    ∧ slugValue ≠ []
    ∧ processRow' st index row =
      {| st_items :=
           st_items st ++
           [{| item_id := rowId; item_slug := slugValue; item_draft := false;
               item_fieldData :=
                 buildFieldData fieldMap codaColumnTypeMap use12HourTime
                   (row_values row) |}];
         st_warnings := st_warnings st;
         st_skippedCount := st_skippedCount st |}.
Proof.
  unfold rowSkipped, missingRowId, missingSlug, processRow.
  intros [Hid Hslug]%orb_false_iff.
  destruct (row_id row) as [[|c rowId]|]; try done.
  destruct (extractSlugValue _) as [[|d slugValue]|]; try done.
  by exists (c :: rowId), (d :: slugValue).
Qed.

(** A skipped row adds one to the count and a warning, and no item. *)
Lemma processRow_skipped (st : RowsState) (index : nat) (row : NormalizedRow) :
  rowSkipped slugFieldId row = true →
  st_items (processRow' st index row) = st_items st
  ∧ st_skippedCount (processRow' st index row) = (st_skippedCount st + 1)%nat
  ∧ ∃ w, st_warnings (processRow' st index row) = st_warnings st ++ [w].
Proof.
  intros Hskip. destruct (missingRowId row) eqn:Hid.
  - rewrite processRow_missing_id by done. simpl. eauto.
  - unfold rowSkipped in Hskip. rewrite Hid in Hskip. simpl in Hskip.
    unfold missingRowId in Hid.
    destruct (row_id row) as [[|c rowId]|] eqn:Hrow; try done.
    rewrite (processRow_missing_slug _ _ _ (c :: rowId)) by done.
    simpl. eauto.
Qed.

Lemma processRows_skippedCount (rows : list NormalizedRow) (st : RowsState)
    (index : nat) :
  st_skippedCount (processRows' st index rows)
  = (st_skippedCount st
     + length (List.filter (rowSkipped slugFieldId) rows))%nat.
Proof.
  revert st index. induction rows as [|row rows IH]; intros st index; simpl.
  - lia.
  - rewrite IH. destruct (rowSkipped slugFieldId row) eqn:Hskip.
    + destruct (processRow_skipped st index row Hskip) as (_ & -> & _).
      simpl. lia.
    + destruct (processRow_kept st index row Hskip)
        as (rowId & slugValue & _ & _ & _ & _ & ->).
      simpl. lia.
Qed.

Lemma processRows_items (rows : list NormalizedRow) (st : RowsState)
    (index : nat) :
  st_items (processRows' st index rows) = st_items st ++ omap itemOfRow' rows.
Proof.
  revert st index. induction rows as [|row rows IH]; intros st index; simpl.
  - by rewrite app_nil_r.
  - rewrite IH. unfold itemOfRow at 2.
    destruct (rowSkipped slugFieldId row) eqn:Hskip.
    + by destruct (processRow_skipped st index row Hskip) as (-> & _ & _).
    + destruct (processRow_kept st index row Hskip)
        as (rowId & slugValue & -> & _ & -> & _ & ->).
      simpl. by rewrite <- app_assoc.
Qed.

Lemma processRows_warning_id (rows : list NormalizedRow) (st : RowsState)
    (index i : nat) (row : NormalizedRow) :
  rows !! i = Some row → missingRowId row = true →
  str "Row at index " ++ intToString (Z.of_nat (index + i))
    ++ str " is missing a row id and was skipped."
  ∈ st_warnings (processRows' st index rows).
Proof.
  revert st index i. induction rows as [|r rows IH]; intros st index i; [done|].
  destruct i as [|i]; simpl.
  - intros [= ->] Hid. rewrite Nat.add_0_r.
    eapply elem_of_prefix; [|apply processRows_warnings_prefix].
    rewrite processRow_missing_id by done. simpl. set_solver.
  - intros Hrow Hid. replace (index + S i)%nat with (S index + i)%nat by lia.
    by apply IH.
Qed.


(** The warnings that the rows add are those of the rows without an id and
    of the rows without a slug. *)
Lemma processRows_warnings_elem_of (rows : list NormalizedRow)
    (st : RowsState) (index : nat) (w : jsstring) :
  w ∈ st_warnings (processRows' st index rows) →
  w ∈ st_warnings st
  ∨ ∃ i row, rows !! i = Some row
      ∧ (w = str "Row at index " ++ intToString (Z.of_nat (index + i))
             ++ str " is missing a row id and was skipped."
         ∨ ∃ rowId, row_id row = Some rowId
             ∧ w = str "Row " ++ rowId
                   ++ str " is missing a slug value and was skipped.").
Proof.
  revert st index. induction rows as [|row rows IH]; intros st index; simpl.
  - by left.
  - intros [Hw|(i & r & Hr & Hw)]%IH.
    + destruct (rowSkipped slugFieldId row) eqn:Hskip.
      * destruct (missingRowId row) eqn:Hid.
        -- rewrite processRow_missing_id in Hw by done. simpl in Hw.
           apply elem_of_app in Hw as [Hw|Hw%list_elem_of_singleton];
             [by left|].
           right. exists 0%nat, row. split; [done|]. left.
           by rewrite Nat.add_0_r.
        -- unfold rowSkipped in Hskip. rewrite Hid in Hskip. simpl in Hskip.
           unfold missingRowId in Hid.
           destruct (row_id row) as [[|c rowId]|] eqn:Hrow; try done.
           rewrite (processRow_missing_slug _ _ _ (c :: rowId)) in Hw by done.
           simpl in Hw.
           apply elem_of_app in Hw as [Hw|Hw%list_elem_of_singleton];
             [by left|].
           right. exists 0%nat, row. split; [done|]. right. eauto.
      * destruct (processRow_kept st index row Hskip)
          as (rowId & slugValue & _ & _ & _ & _ & Hst).
        rewrite Hst in Hw. by left.
    + right. exists (S i), r. split; [done|].
      by replace (index + S i)%nat with (S index + i)%nat by lia.
Qed.

End RowProperties.

(** ** Blank texts *)

Lemma dropWhile_all {A} (p : A → bool) (l : list A) :
  forallb p l = true → dropWhile p l = [].
Proof.
  induction l as [|x l IH]; [done|]. simpl.
  intros [-> Hl]%andb_true_iff. by apply IH.
Qed.

Lemma dropWhile_nil_inv {A} (p : A → bool) (l : list A) :
  dropWhile p l = [] → forallb p l = true.
Proof.
  induction l as [|x l IH]; [done|]. simpl.
  destruct (p x); [by apply IH|done].
Qed.

Lemma dropWhile_head {A} (p : A → bool) (l : list A) (x : A) (r : list A) :
  dropWhile p l = x :: r → p x = false.
Proof.
  induction l as [|y l IH]; [done|]. simpl.
  destruct (p y) eqn:Hy; [by apply IH|]. by intros [= <- _].
Qed.

(** A text trims to the empty text exactly when it is white space only. *)
Lemma trim_nil (s : jsstring) : trim s = [] ↔ forallb isWhiteSpace s = true.
Proof.
  unfold trim, trimEnd, trimStart. split.
  - intros Hs. destruct (dropWhile isWhiteSpace s) as [|c r] eqn:Hd.
    + by apply dropWhile_nil_inv.
    + exfalso. pose proof (dropWhile_head _ _ _ _ Hd) as Hc.
      apply (f_equal (@rev N)) in Hs. rewrite rev_involutive in Hs.
      simpl in Hs. apply dropWhile_nil_inv in Hs.
      rewrite forallb_app in Hs. simpl in Hs.
      apply andb_true_iff in Hs as [_ Hs]. by rewrite Hc in Hs.
  - intros Hs. by rewrite (dropWhile_all _ s).
Qed.

Lemma isBlank_string (s : jsstring) :
  isBlank (VStr s) = true ↔ forallb isWhiteSpace s = true.
Proof. simpl. by rewrite streqb_true, trim_nil. Qed.



Lemma startsWith_cons (c a : N) (s p : jsstring) :
  startsWith (c :: s) (a :: p) = (a =? c) && startsWith s p.
Proof. done. Qed.

Section BlankSlug.
Context `{Runtime}.



End BlankSlug.

Section SoftSkip.
Context `{Runtime}.

Lemma items_of_result (columns : list CodaColumnInput)
    (rows : list NormalizedRow) (slugFieldId : jsstring)
    (referenceMap : gmap jsstring jsstring) (use12HourTime : bool) :
  let result :=
    buildFieldsAndItems columns rows slugFieldId referenceMap use12HourTime in
  items result =
  omap (itemOfRow (fieldMapOf (fields result)) (columnTypeMapOf columns)
          slugFieldId use12HourTime) rows.
Proof. simpl. by rewrite processRows_items. Qed.


Lemma omap_itemOfRow_length fieldMap typeMap (slugFieldId : jsstring)
    (use12HourTime : bool) (rows : list NormalizedRow) :
  (length (omap (itemOfRow fieldMap typeMap slugFieldId use12HourTime) rows)
   + length (List.filter (rowSkipped slugFieldId) rows))%nat = length rows.
Proof.
  induction rows as [|row rows IH]; [done|]. simpl.
  unfold itemOfRow at 1.
  destruct (rowSkipped slugFieldId row) eqn:Hskip; simpl.
  { fold (omap (itemOfRow fieldMap typeMap slugFieldId use12HourTime) rows).
    lia. }
  unfold rowSkipped, missingRowId, missingSlug in Hskip.
  apply orb_false_iff in Hskip as [Hid Hslug].
  destruct (row_id row) as [rowId|]; [|done].
  destruct (extractSlugValue _) as [slugValue|]; [|done].
  simpl. fold (omap (itemOfRow fieldMap typeMap slugFieldId use12HourTime) rows).
  lia.
Qed.


End SoftSkip.


(** ** The number coercion *)

Lemma filter_filter_bool {A} (p q : A → bool) (l : list A) :
  List.filter q (List.filter p l) = List.filter (λ x, p x && q x) l.
Proof.
  induction l as [|x l IH]; [done|]. simpl.
  destruct (p x); simpl; [destruct (q x)|]; by rewrite IH.
Qed.

(** White space is neither a currency sign nor a comma. *)
Lemma filter_white_text (s : jsstring) :
  forallb isWhiteSpace s = true →
  List.filter (λ c, negb (existsb (N.eqb c) (currencySymbols ++ str ","))) s
  = s.
Proof.
  induction s as [|c s IH]; [done|].
  intros [Hc Hs]%andb_true_iff. cbn [List.filter].
  destruct (existsb (N.eqb c) (currencySymbols ++ str ",")) eqn:He.
  - exfalso. apply existsb_exists in He as (d & Hd & Heq).
    apply N.eqb_eq in Heq as <-.
    change (In c [36; 163; 8364; 165; 44]) in Hd. simpl in Hd.
    repeat (destruct Hd as [<-|Hd]; [by vm_compute in Hc|]). done.
  - cbn [negb]. f_equal. by apply IH.
Qed.

Section NumberProperties.
Context `{Runtime}.

(** C5: the number coercion.  A number is passed through.  Of a text, the
    currency signs and the commas are removed and the rest is trimmed; what
    is left is parsed, without its last code unit and divided by 100 when it
    ends in a percent sign; a text that does not parse gives 0.  Every value
    gives an entry of type number, and the warnings of a result are those of
    the reference override and of the skipped rows: none comes from a
    cell. *)
Theorem number_coercion (field : Field) (codaColumnType : jsstring)
    (use12HourTime : bool) :
  field_type field = TNumber →
  let number (x : float) :=
    Some {| entry_type := TNumber; entry_value := VNum x |} in
  let transform v :=
    transformCodaValue v field codaColumnType use12HourTime in
  (∀ x, transform (VNum x) = number x)
  ∧ (∀ s,
       let cleanValue :=
         trim (List.filter
                 (λ c, negb (existsb (N.eqb c) (currencySymbols ++ str ",")))
                 s) in
       (endsWith cleanValue (str "%") = true →
          let parsed := Number_ (dropLast cleanValue) in
          (PrimFloat.is_nan parsed = false →
             transform (VStr s) = number (parsed / 100)%float)
          ∧ (PrimFloat.is_nan parsed = true →
             transform (VStr s) = number 0%float))
       ∧ (endsWith cleanValue (str "%") = false →
          let parsed := Number_ cleanValue in
          (PrimFloat.is_nan parsed = false →
             transform (VStr s) = number parsed)
          ∧ (PrimFloat.is_nan parsed = true →
             transform (VStr s) = number 0%float)))
  ∧ (∀ v, ∃ x, transform v =
            Some {| entry_type := TNumber; entry_value := x |})
  ∧ (∀ columns rows slugFieldId referenceMap w,
       w ∈ warnings (buildFieldsAndItems columns rows slugFieldId
                       referenceMap use12HourTime) →
       (∃ column, column ∈ columns ∧ w ∈ (mapColumn referenceMap column).2)
       ∨ ∃ i row, rows !! i = Some row
           ∧ (w = str "Row at index " ++ intToString (Z.of_nat i)
                  ++ str " is missing a row id and was skipped."
              ∨ ∃ rowId, row_id row = Some rowId
                  ∧ w = str "Row " ++ rowId
                        ++ str " is missing a slug value and was skipped."))
  ∧ transform (VStr (str "$1,200.50")) = number 1200.5%float
  ∧ transform (VStr (str "25%")) = number 0.25%float
  ∧ transform (VStr (str "abc")) = number 0%float.
Proof.
  intros Hty number transform. subst number transform.
  unfold transformCodaValue. rewrite Hty. split_and!.
  - done.
  - intros s. destruct (isBlank (VStr s)) eqn:Hblank.
    + apply isBlank_string in Hblank.
      rewrite filter_white_text by done.
      replace (trim s) with (@nil N) by (symmetry; by apply trim_nil).
      by split.
    + assert (trim (List.filter
                   (λ c, negb (existsb (N.eqb c) (currencySymbols ++ str ",")))
                   s) =
        trim (List.filter (λ c, negb (c =? cu ","))
                (List.filter (λ c, negb (existsb (N.eqb c) currencySymbols))
                   s))) as Hclean.
      { rewrite filter_filter_bool. f_equal.
        apply filter_ext. intros c. rewrite existsb_app.
        change (existsb (N.eqb c) (str ",")) with ((c =? cu ",") || false).
        by rewrite orb_false_r, negb_orb. }
      unfold coerceNumber. rewrite <- Hclean.
      split; intros ->; simpl; split; by intros ->.
  - intros v. destruct (isBlank v); [by eexists|]. by eexists.
  - intros columns rows slugFieldId referenceMap w. simpl.
    intros [Hw|Hw]%processRows_warnings_elem_of; [left|by right].
    simpl in Hw. apply list_elem_of_In, in_concat in Hw as (ws & Hws & Hw).
    apply in_map_iff in Hws as (cw & <- & Hcw).
    apply in_map_iff in Hcw as (column & <- & Hcolumn).
    exists column. by rewrite !list_elem_of_In.
  - by vm_compute.
  - by vm_compute.
  - by vm_compute.
Qed.

End NumberProperties.

Lemma number_coercion_witness :
  @transformCodaValue asciiRuntime (VStr ([32; 8364] ++ str "12,5 % "))
    (exampleField "c5" "Share" TNumber None) (str "percent") false
  = Some {| entry_type := TNumber; entry_value := VNum 1.25%float |}.
Proof.
  refine (proj1 (proj1 (proj1 (proj2 (@number_coercion asciiRuntime
    (exampleField "c5" "Share" TNumber None) (str "percent") false eq_refl))
    ([32; 8364] ++ str "12,5 % ")) _) _); by vm_compute.
Defined.

(** ** The fields and the items of a result *)

Lemma filter_key_NoDup {A} (key : A → jsstring) (l : list A) (x : A) :
  NoDup (map key l) → x ∈ l → filter (λ y, key y = key x) l = [x].
Proof.
  induction l as [|y l IH]; [by intros _ ?%not_elem_of_nil|].
  simpl. intros [Hnotin Hnd]%NoDup_cons Hx.
  rewrite filter_cons. apply elem_of_cons in Hx as [->|Hx].
  - rewrite decide_True by done. f_equal.
    clear IH Hnd. induction l as [|z l IH]; [done|].
    apply not_elem_of_cons in Hnotin as [Hne Hnotin].
    rewrite filter_cons, decide_False by done. by apply IH.
  - rewrite decide_False; [by apply IH|].
    intros Heq. apply Hnotin. rewrite Heq.
    apply list_elem_of_fmap. eauto.
Qed.

Lemma fieldMapOf_NoDup (fs : list Field) (f : Field) :
  NoDup (map field_id fs) → f ∈ fs → fieldMapOf fs !! field_id f = Some f.
Proof.
  intros Hnd Hf.
  by rewrite fieldMapOf_lookup, (filter_key_NoDup field_id fs f).
Qed.

Section ResultProperties.
Context `{Runtime}.

Lemma mapCodaTypeToFramerType_id (column : CodaColumnInput) (f : Field) :
  mapCodaTypeToFramerType column = Some f → field_id f = col_id column.
Proof.
  unfold mapCodaTypeToFramerType, plainField.
  intros Hf. repeat case_match; by simplify_eq.
Qed.

Lemma mapColumn_id (referenceMap : gmap jsstring jsstring)
    (column : CodaColumnInput) (f : Field) :
  (mapColumn referenceMap column).1 = Some f → field_id f = col_id column.
Proof.
  unfold mapColumn.
  destruct (mapCodaTypeToFramerType column) as [g|] eqn:Hg; [|done].
  apply mapCodaTypeToFramerType_id in Hg.
  intros Hf. repeat case_match; simpl in *; by simplify_eq.
Qed.

Lemma synthesizeEnumCases_ids (columns : list CodaColumnInput)
    (rows : list NormalizedRow) (fs : list Field) :
  map field_id (synthesizeEnumCases columns rows fs) = map field_id fs.
Proof.
  unfold synthesizeEnumCases. destruct (List.filter _ fs); [done|].
  rewrite List.map_map. apply map_ext. intros g.
  by repeat case_match.
Qed.

Lemma mapped_ids_sublist (referenceMap : gmap jsstring jsstring)
    (columns : list CodaColumnInput) :
  map field_id (omap fst (map (mapColumn referenceMap) columns))
  `sublist_of` map col_id columns.
Proof.
  induction columns as [|c columns IH]; [done|]. simpl.
  destruct (mapColumn referenceMap c).1 as [f|] eqn:Hf; simpl.
  - rewrite (mapColumn_id _ _ _ Hf). by apply sublist_skip.
  - by apply sublist_cons.
Qed.

Lemma fields_ids_NoDup (columns : list CodaColumnInput)
    (rows : list NormalizedRow) (slugFieldId : jsstring)
    (referenceMap : gmap jsstring jsstring) (use12HourTime : bool) :
  NoDup (map col_id columns) →
  NoDup (map field_id
           (fields (buildFieldsAndItems columns rows slugFieldId referenceMap
                      use12HourTime))).
Proof.
  intros Hnd. simpl. rewrite synthesizeEnumCases_ids.
  exact (sublist_NoDup _ _ Hnd (mapped_ids_sublist referenceMap columns)).
Qed.

(** An item of a result is the item of one of the rows. *)
Lemma item_of_result (columns : list CodaColumnInput)
    (rows : list NormalizedRow) (slugFieldId : jsstring)
    (referenceMap : gmap jsstring jsstring) (use12HourTime : bool)
    (item : Item) :
  let result :=
    buildFieldsAndItems columns rows slugFieldId referenceMap use12HourTime in
  item ∈ items result →
  ∃ row, row ∈ rows ∧ row_id row = Some (item_id item)
    ∧ item_fieldData item =
      buildFieldData (fieldMapOf (fields result)) (columnTypeMapOf columns)
        use12HourTime (row_values row).
Proof.
  intros result. subst result. rewrite items_of_result.
  intros (row & Hrow & Hitem)%list_elem_of_omap. exists row.
  split; [done|]. unfold itemOfRow in Hitem.
  repeat case_match; by simplify_eq.
Qed.

(** C9: every entry of the field data of an item carries the type of the
    field of the result that has the key of the entry as its id (of the last
    such field, which is the only one when the column ids are distinct); the
    Value Transformer gives no entry of another type than that of the field
    it is given. *)
Theorem entry_type_is_field_type (columns : list CodaColumnInput)
    (rows : list NormalizedRow) (slugFieldId : jsstring)
    (referenceMap : gmap jsstring jsstring) (use12HourTime : bool) :
  let result :=
    buildFieldsAndItems columns rows slugFieldId referenceMap use12HourTime in
  (∀ v field codaColumnType use12 e,
     transformCodaValue v field codaColumnType use12 = Some e →
     entry_type e = field_type field)
  ∧ (∀ item k e,
       item ∈ items result → item_fieldData item !! k = Some e →
       ∃ f, f ∈ fields result ∧ field_id f = k
            ∧ last (filter (λ f, field_id f = k) (fields result)) = Some f
            ∧ entry_type e = field_type f)
  ∧ (NoDup (map col_id columns) →
     ∀ item k e f,
       item ∈ items result → item_fieldData item !! k = Some e →
       f ∈ fields result → field_id f = k →
       entry_type e = field_type f).
Proof.
  intros result.
  assert (∀ item k e,
       item ∈ items result → item_fieldData item !! k = Some e →
       ∃ f, f ∈ fields result ∧ field_id f = k
            ∧ fieldMapOf (fields result) !! k = Some f
            ∧ entry_type e = field_type f) as Hentry.
  { intros item k e Hitem He.
    apply item_of_result in Hitem as (row & _ & _ & Hdata).
    fold result in Hdata. rewrite Hdata, buildFieldData_lookup in He.
    destruct (assoc k (row_values row)) as [v|]; [|done].
    destruct (fieldMapOf (fields result) !! k) as [f|] eqn:Hf; [|done].
    exists f. destruct (fieldMapOf_Some _ _ _ Hf) as [Hin Hid].
    split_and!; try done. by eapply transformCodaValue_type. }
  split_and!.
  - intros v field ct u e. apply transformCodaValue_type.
  - intros item k e Hitem He.
    destruct (Hentry item k e Hitem He) as (f & Hin & Hid & Hf & Hty).
    exists f. by rewrite <- fieldMapOf_lookup.
  - intros Hnd item k e f Hitem He Hin Hid.
    destruct (Hentry item k e Hitem He) as (g & _ & _ & Hg & ->).
    f_equal.
    pose proof (fieldMapOf_NoDup (fields result) f
      (fields_ids_NoDup columns rows slugFieldId referenceMap use12HourTime
         Hnd) Hin) as Hf.
    rewrite Hid in Hf. congruence.
Qed.


End ResultProperties.

Lemma entry_type_is_field_type_witness :
  let result :=
    @buildFieldsAndItems asciiRuntime
      [exampleColumn "c1" "Title" "text" false None;
       exampleColumn "c2" "Price" "currency" false None]
      [exampleRow (Some (str "r1"))
         [("c1", VStr (str "Hello")); ("c2", VStr (str "$1,200.50"))]%string]
      (str "c1") ∅ false in
  ∃ item e,
    items result = [item]
    ∧ item_fieldData item !! str "c2" = Some e
    ∧ entry_value e = VNum 1200.5%float
    ∧ entry_type e = field_type (exampleField "c2" "Price" TNumber None).
Proof.
  intros result.
  pose (item := {| item_id := str "r1"; item_slug := str "Hello";
                   item_draft := false;
                   item_fieldData :=
                     <[str "c2" :=
                         {| entry_type := TNumber;
                            entry_value := VNum 1200.5%float |}]>
                       (<[str "c1" :=
                            {| entry_type := TString;
                               entry_value := VStr (str "Hello") |}]> ∅) |}).
  assert (items result = [item]) as Hitems by (by vm_compute).
  exists item, {| entry_type := TNumber; entry_value := VNum 1200.5%float |}.
  split_and!; [done|by vm_compute|done|].
  refine (proj2 (proj2 (@entry_type_is_field_type asciiRuntime
    [exampleColumn "c1" "Title" "text" false None;
     exampleColumn "c2" "Price" "currency" false None]
    [exampleRow (Some (str "r1"))
       [("c1", VStr (str "Hello")); ("c2", VStr (str "$1,200.50"))]%string]
    (str "c1") ∅ false)) _ item (str "c2") _
    (exampleField "c2" "Price" TNumber None) _ _ _ eq_refl).
  - apply (bool_decide_unpack _). by vm_compute.
  - fold result. rewrite Hitems. by left.
  - by vm_compute.
  - vm_compute. right; left.
Defined.



(** ** The Enum Domain Synthesizer *)

Lemma setAdd_elem_of (s : list jsstring) (x y : jsstring) :
  y ∈ setAdd s x ↔ y ∈ s ∨ y = x.
Proof.
  unfold setAdd. case_bool_decide as Hx.
  - split; [by left|]. by intros [?| ->].
  - rewrite elem_of_app, list_elem_of_singleton. tauto.
Qed.

Lemma foldl_setAdd_elem_of (l s : list jsstring) (y : jsstring) :
  y ∈ foldl setAdd s l ↔ y ∈ s ∨ y ∈ l.
Proof.
  revert s. induction l as [|x l IH]; intros s; simpl.
  - rewrite elem_of_nil. tauto.
  - rewrite IH, setAdd_elem_of, elem_of_cons. tauto.
Qed.

Lemma foldl_setAdd_present (l s : list jsstring) :
  (∀ x, x ∈ l → x ∈ s) → foldl setAdd s l = s.
Proof.
  induction l as [|x l IH]; intros Hl; [done|]. simpl.
  unfold setAdd at 2. rewrite bool_decide_eq_true_2 by (apply Hl; by left).
  apply IH. intros y Hy. apply Hl. by right.
Qed.

(** Adding the same labels a second time changes nothing. *)
Lemma foldl_setAdd_twice (l s : list jsstring) :
  foldl setAdd (foldl setAdd s l) l = foldl setAdd s l.
Proof.
  apply foldl_setAdd_present. intros x Hx.
  apply foldl_setAdd_elem_of. by right.
Qed.

(** The set that insertion builds is the ordered set of the specification. *)
Lemma foldl_setAdd_firstOccurrences (l s : list jsstring) :
  foldl setAdd s l = s ++ firstOccurrences s l.
Proof.
  revert s. induction l as [|x l IH]; intros s; simpl.
  - by rewrite app_nil_r.
  - rewrite IH. unfold setAdd. case_bool_decide; [done|].
    by rewrite <- app_assoc.
Qed.

Lemma firstOccurrences_elem_of (l seen : list jsstring) (y : jsstring) :
  y ∈ firstOccurrences seen l ↔ y ∈ l ∧ y ∉ seen.
Proof.
  revert seen. induction l as [|x l IH]; intros seen; simpl.
  - rewrite elem_of_nil. tauto.
  - case_bool_decide as Hx.
    + rewrite IH, elem_of_cons. split; [tauto|].
      intros [[->|?] ?]; tauto.
    + rewrite elem_of_cons, IH, elem_of_cons, elem_of_app,
        list_elem_of_singleton.
      destruct (decide (y = x)) as [->|Hne]; tauto.
Qed.

Lemma firstOccurrences_NoDup (l seen : list jsstring) :
  NoDup (firstOccurrences seen l).
Proof.
  revert seen. induction l as [|x l IH]; intros seen; simpl; [constructor|].
  case_bool_decide; [done|]. constructor; [|done].
  rewrite firstOccurrences_elem_of, elem_of_app, list_elem_of_singleton.
  tauto.
Qed.

Section ScanProperties.
Context `{Runtime}.

(** The value sets after the fields of one row have been visited. *)
Lemma scan_row (lookupFields : list Field) (row : NormalizedRow)
    (sets : gmap jsstring (list jsstring)) (k : jsstring) :
  scanLookupValues lookupFields [row] sets !! k =
  match sets !! k with
  | Some valueSet =>
    if bool_decide (k ∈ map field_id lookupFields)
    then Some (foldl setAdd valueSet (rowLabels k row))
    else Some valueSet
  | None => None
  end.
Proof.
  unfold scanLookupValues. simpl. revert sets.
  induction lookupFields as [|f lookupFields IH]; intros sets; simpl.
  - by destruct (sets !! k).
  - rewrite IH. clear IH.
    set (v := getProp (row_values row) (field_id f)).
    assert (∀ valueSet, sets !! field_id f = Some valueSet →
      (if truthy v then
         match sets !! field_id f with
         | Some valueSet =>
           <[field_id f :=
               foldl setAdd valueSet (map cleanLabel (extractLookupValues v))]>
             sets
         | None => sets
         end
       else sets) !! field_id f
      = Some (foldl setAdd valueSet (rowLabels (field_id f) row))) as Hsame.
    { intros valueSet Hs. unfold rowLabels. fold v.
      destruct (truthy v); [|done]. by rewrite Hs, lookup_insert_eq. }
    assert (∀ k', k' ≠ field_id f ∨ sets !! field_id f = None →
      (if truthy v then
         match sets !! field_id f with
         | Some valueSet =>
           <[field_id f :=
               foldl setAdd valueSet (map cleanLabel (extractLookupValues v))]>
             sets
         | None => sets
         end
       else sets) !! k' = sets !! k') as Hother.
    { intros k' Hk'. destruct (truthy v); [|done].
      destruct (sets !! field_id f) eqn:Hs; [|done].
      destruct Hk' as [Hk'|?]; [|done]. by rewrite lookup_insert_ne. }
    destruct (decide (k = field_id f)) as [->|Hne].
    + destruct (sets !! field_id f) as [valueSet|] eqn:Hs.
      * rewrite (Hsame valueSet) by done.
        rewrite (bool_decide_eq_true_2 (_ ∈ _ :: _)) by (by left).
        case_bool_decide; [|done]. by rewrite foldl_setAdd_twice.
      * rewrite Hother by (by right). by rewrite Hs.
    + rewrite Hother by (by left).
      destruct (sets !! k); [|done].
      assert (bool_decide (k ∈ field_id f :: map field_id lookupFields)
              = bool_decide (k ∈ map field_id lookupFields)) as ->; [|done].
      apply bool_decide_ext. rewrite elem_of_cons. tauto.
Qed.

Lemma scan_cons (lookupFields : list Field) (row : NormalizedRow)
    (rows : list NormalizedRow) (sets : gmap jsstring (list jsstring)) :
  scanLookupValues lookupFields (row :: rows) sets
  = scanLookupValues lookupFields rows
      (scanLookupValues lookupFields [row] sets).
Proof. done. Qed.

(** The value sets after the scan of all rows. *)
Lemma scan_rows (lookupFields : list Field) (rows : list NormalizedRow)
    (sets : gmap jsstring (list jsstring)) (k : jsstring) :
  scanLookupValues lookupFields rows sets !! k =
  match sets !! k with
  | Some valueSet =>
    if bool_decide (k ∈ map field_id lookupFields)
    then Some (foldl setAdd valueSet (lookupLabels k rows))
    else Some valueSet
  | None => None
  end.
Proof.
  revert sets. induction rows as [|row rows IH]; intros sets.
  - simpl. destruct (sets !! k); [|done]. by case_bool_decide.
  - rewrite scan_cons, IH, scan_row. destruct (sets !! k); [|done].
    case_bool_decide; [|done]. unfold lookupLabels. simpl.
    by rewrite foldl_app.
Qed.

Lemma empty_sets_lookup (lookupFields : list Field) (k : jsstring) :
  foldl (λ (sets : gmap jsstring (list jsstring)) field,
           <[field_id field := []]> sets) ∅ lookupFields !! k
  = if bool_decide (k ∈ map field_id lookupFields) then Some [] else None.
Proof.
  induction lookupFields as [|f lookupFields IH] using rev_ind; [done|].
  rewrite foldl_app, List.map_app. simpl. rewrite lookup_insert.
  destruct (decide (field_id f = k)) as [Hk|Hk].
  - subst k. rewrite bool_decide_eq_true_2; [done|].
    apply elem_of_app. right. by left.
  - rewrite IH.
    assert (bool_decide (k ∈ map field_id lookupFields ++ [field_id f])
            = bool_decide (k ∈ map field_id lookupFields)) as ->; [|done].
    apply bool_decide_ext. rewrite elem_of_app, list_elem_of_singleton.
    split; [|by left]. by intros [?|?].
Qed.

(** What the synthesis makes of a lookup field. *)
Lemma synthesizeEnumCases_lookup (columns : list CodaColumnInput)
    (rows : list NormalizedRow) (fs : list Field) (f : Field)
    (cases : list EnumCase) :
  f ∈ fs → isLookupField columns f = true → field_cases f = Some cases →
  {| field_id := field_id f; field_name := field_name f;
     field_type := field_type f;
     field_cases :=
       Some (map (λ v, {| case_id := v; case_name := v |})
               (List.filter nonEmpty
                  (firstOccurrences [] (lookupLabels (field_id f) rows))));
     field_collectionId := field_collectionId f;
     field_allowedFileTypes := field_allowedFileTypes f |}
  ∈ synthesizeEnumCases columns rows fs.
Proof.
  intros Hf Hlookup Hcases. unfold synthesizeEnumCases.
  assert (f ∈ List.filter (isLookupField columns) fs) as Hin.
  { apply list_elem_of_In, filter_In. split; [by apply list_elem_of_In|done]. }
  destruct (List.filter (isLookupField columns) fs) as [|g l] eqn:Hl;
    [by apply not_elem_of_nil in Hin|].
  rewrite <- Hl in Hin |- *. clear g l Hl.
  apply list_elem_of_fmap. exists f. split; [|done].
  rewrite Hlookup, Hcases, scan_rows, empty_sets_lookup.
  assert (field_id f ∈ map field_id (List.filter (isLookupField columns) fs))
    as Hid by (apply list_elem_of_fmap; eauto).
  rewrite !bool_decide_eq_true_2 by done. simpl.
  by rewrite foldl_setAdd_firstOccurrences.
Qed.

End ScanProperties.

Lemma NoDup_filter_bool {A} (p : A → bool) (l : list A) :
  NoDup l → NoDup (List.filter p l).
Proof.
  induction 1 as [|x l Hx Hnd IH]; simpl; [constructor|].
  destruct (p x); [|done]. constructor; [|done].
  rewrite list_elem_of_In, filter_In, <- list_elem_of_In. tauto.
Qed.

Section SynthesisProperties.
Context `{Runtime}.

(** The field of a lookup column that the Type Mapper maps to an enum
    field: the column is a scalar one and the field has no case yet. *)
Lemma mapCodaTypeToFramerType_lookup_enum (column : CodaColumnInput)
    (f : Field) :
  toLowerCase (fmt_type (col_format column)) = str "lookup" →
  mapCodaTypeToFramerType column = Some f → field_type f = TEnum →
  fmt_isArray (col_format column) = false
  ∧ f = {| field_id := col_id column; field_name := col_name column;
           field_type := TEnum; field_cases := Some [];
           field_collectionId := None; field_allowedFileTypes := None |}.
Proof.
  intros Hlookup. unfold mapCodaTypeToFramerType. rewrite Hlookup.
  assert (typeIs (str "lookup") "button" = false) as -> by done.
  assert (typeIs (str "lookup") "image" = false) as -> by done.
  assert (typeIn (str "lookup") ["select"; "scale"]%string = false)
    as -> by done.
  assert (typeIn (str "lookup") ["text"; "email"; "phone"]%string = false)
    as -> by done.
  assert (typeIn (str "lookup")
            ["number"; "currency"; "percent"; "duration"]%string = false)
    as -> by done.
  assert (typeIs (str "lookup") "checkbox" = false) as -> by done.
  assert (typeIn (str "lookup") ["date"; "datetime"]%string = false)
    as -> by done.
  assert (typeIs (str "lookup") "time" = false) as -> by done.
  assert (typeIs (str "lookup") "file" = false) as -> by done.
  assert (typeIn (str "lookup") ["canvas"; "richtext"]%string = false)
    as -> by done.
  assert (typeIn (str "lookup") ["person"; "lookup"; "reference"]%string
          = true) as -> by done.
  assert (typeIs (str "lookup") "lookup" = true) as -> by done.
  simpl. destruct (_ || _); [by intros [= <-]|].
  destruct (fmt_isArray (col_format column)); simpl; by intros [= <-].
Qed.

(** C4: the field of a scalar lookup column without declared choices.  Its
    cases are the labels of the cells of all rows, each with its fences and
    the white space around it stripped, without the empty ones, each once,
    in the order of their first occurrence; the id and the name of a case
    are the label; no two cases have the same id. *)
Theorem lookup_enum_cases (columns : list CodaColumnInput)
    (rows : list NormalizedRow) (slugFieldId : jsstring)
    (referenceMap : gmap jsstring jsstring) (use12HourTime : bool)
    (column : CodaColumnInput) (mappedField : Field) :
  column ∈ columns →
  toLowerCase (fmt_type (col_format column)) = str "lookup" →
  mapCodaTypeToFramerType column = Some mappedField →
  field_type mappedField = TEnum →
  let result :=
    buildFieldsAndItems columns rows slugFieldId referenceMap use12HourTime in
  let labels := lookupLabels (col_id column) rows in
  let names := List.filter nonEmpty (firstOccurrences [] labels) in
  let cases := map (λ label, {| case_id := label; case_name := label |}) names in
  {| field_id := col_id column; field_name := col_name column;
     field_type := TEnum; field_cases := Some cases;
     field_collectionId := None; field_allowedFileTypes := None |}
  ∈ fields result
  ∧ (∀ label, label ∈ names ↔ label ∈ labels ∧ label ≠ [])
  ∧ (∀ label, label ∈ labels ↔
       ∃ row raw, row ∈ rows
         ∧ truthy (getProp (row_values row) (col_id column)) = true
         ∧ raw ∈ extractLookupValues (getProp (row_values row) (col_id column))
         ∧ label = trim (stripFences raw))
  ∧ NoDup names
  ∧ NoDup (map case_id cases)
  ∧ Forall (λ c, case_id c = case_name c ∧ case_id c ≠ []) cases.
Proof.
  intros Hc Hlookup Hmap Hty result labels names cases.
  assert (labels = lookupLabels (col_id column) rows) as Hlabels by done.
  destruct (mapCodaTypeToFramerType_lookup_enum _ _ Hlookup Hmap Hty)
    as [Harr ->].
  assert (NoDup names) as Hnd.
  { subst names. apply NoDup_filter_bool, firstOccurrences_NoDup. }
  assert (∀ label, label ∈ names ↔ label ∈ labels ∧ label ≠ []) as Hnames.
  { intros label. subst names.
    rewrite list_elem_of_In, filter_In, <- list_elem_of_In.
    rewrite firstOccurrences_elem_of, nonEmpty_true.
    pose proof (not_elem_of_nil label). tauto. }
  assert (map case_id cases = names) as Hids.
  { subst cases. rewrite List.map_map. simpl. apply map_id. }
  split_and!; try done.
  - subst result. simpl.
    set (f := {| field_id := col_id column; field_name := col_name column;
                 field_type := TEnum; field_cases := Some [];
                 field_collectionId := None;
                 field_allowedFileTypes := None |}).
    apply (synthesizeEnumCases_lookup columns rows _ f []); [|  |done].
    + apply list_elem_of_omap. exists (mapColumn referenceMap column).
      split; [by apply list_elem_of_fmap; eauto|].
      unfold mapColumn. by rewrite Hmap.
    + unfold isLookupField. apply existsb_exists. exists column.
      split; [by apply list_elem_of_In|].
      by rewrite streqb_refl, Hlookup, streqb_refl.
  - intros label. rewrite Hlabels. unfold lookupLabels.
    rewrite list_elem_of_In, in_flat_map. unfold rowLabels, cleanLabel.
    split.
    + intros (row & Hrow & Hlabel). exists row.
      destruct (truthy _); [|done].
      apply in_map_iff in Hlabel as (raw & <- & Hraw).
      exists raw. by rewrite !list_elem_of_In.
    + intros (row & raw & Hrow & Htruthy & Hraw & ->). exists row.
      split; [by apply list_elem_of_In|]. rewrite Htruthy.
      apply in_map_iff. exists raw. split; [done|by apply list_elem_of_In].
  - by rewrite Hids.
  - subst cases. apply Forall_forall. intros c Hcase.
    apply list_elem_of_fmap in Hcase as (label & -> & Hlabel).
    split; [done|]. simpl. by apply Hnames in Hlabel as [_ ?].
Qed.

End SynthesisProperties.

Lemma lookup_enum_cases_witness :
  let columns :=
    [exampleColumn "c1" "Title" "text" false None;
     exampleColumn "c2" "Color" "Lookup" false None] in
  let rows :=
    [exampleRow (Some (str "r1"))
       [("c1", VStr (str "One")); ("c2", VStr (str "Red"))];
     exampleRow (Some (str "r2"))
       [("c1", VStr (str "Two"));
        ("c2", VArr [VStr (str "```Blue```");
                     VObj [(str "name", VStr (str " Red "))];
                     VStr (str "  ")])];
     exampleRow None [("c2", VObj [(str "value", VStr (str "Green"))])];
     exampleRow (Some (str "r4"))
       [("c1", VStr (str "Four")); ("c2", VStr (str "Blue"))]]%string in
  {| field_id := str "c2"; field_name := str "Color"; field_type := TEnum;
     field_cases :=
       Some [{| case_id := str "Red"; case_name := str "Red" |};
             {| case_id := str "Blue"; case_name := str "Blue" |};
             {| case_id := str "Green"; case_name := str "Green" |}];
     field_collectionId := None; field_allowedFileTypes := None |}
  ∈ fields (@buildFieldsAndItems asciiRuntime columns rows (str "c1") ∅ false).
Proof.
  intros columns rows.
  refine (proj1 (@lookup_enum_cases asciiRuntime columns rows (str "c1") ∅
    false (exampleColumn "c2" "Color" "Lookup" false None)
    {| field_id := str "c2"; field_name := str "Color"; field_type := TEnum;
       field_cases := Some []; field_collectionId := None;
       field_allowedFileTypes := None |} _ _ _ _)); try by vm_compute.
  right; left.
Defined.

(** ** Invariants of a result *)

Section Invariants.
Context `{Runtime}.

Lemma mapCodaTypeToFramerType_button (column : CodaColumnInput) :
  mapCodaTypeToFramerType column = None ↔
  toLowerCase (fmt_type (col_format column)) = str "button".
Proof.
  unfold mapCodaTypeToFramerType, typeIs. split.
  - intros Hnone. apply streqb_true.
    destruct (streqb _ (str "button")); [done|].
    repeat case_match; by simplify_eq.
  - intros ->. by rewrite streqb_refl.
Qed.

Lemma synthesizeEnumCases_elem_of_id (columns : list CodaColumnInput)
    (rows : list NormalizedRow) (fs : list Field) (f : Field) :
  f ∈ synthesizeEnumCases columns rows fs →
  ∃ g, g ∈ fs ∧ field_id g = field_id f ∧ field_name g = field_name f
       ∧ field_type g = field_type f.
Proof.
  unfold synthesizeEnumCases. destruct (List.filter _ fs) eqn:Hl.
  - intros Hf. by exists f.
  - intros (g & -> & Hg)%list_elem_of_fmap. exists g.
    by repeat case_match.
Qed.

(** X1: every field of a result has the id and the name of a column that is
    not a button column, and a type that the Type Mapper or the reference
    override gives; so when the column ids are distinct, no field has the id
    of a button column. *)
Theorem fields_come_from_columns (columns : list CodaColumnInput)
    (rows : list NormalizedRow) (slugFieldId : jsstring)
    (referenceMap : gmap jsstring jsstring) (use12HourTime : bool) :
  let result :=
    buildFieldsAndItems columns rows slugFieldId referenceMap use12HourTime in
  (∀ column, toLowerCase (fmt_type (col_format column)) = str "button" →
             mapCodaTypeToFramerType column = None)
  ∧ (∀ f, f ∈ fields result →
       ∃ column, column ∈ columns
         ∧ field_id f = col_id column ∧ field_name f = col_name column
         ∧ toLowerCase (fmt_type (col_format column)) ≠ str "button")
  ∧ (NoDup (map col_id columns) →
     ∀ column f, column ∈ columns →
       toLowerCase (fmt_type (col_format column)) = str "button" →
       f ∈ fields result → field_id f ≠ col_id column).
Proof.
  intros result.
  assert (∀ f, f ∈ fields result →
       ∃ column, column ∈ columns
         ∧ field_id f = col_id column ∧ field_name f = col_name column
         ∧ toLowerCase (fmt_type (col_format column)) ≠ str "button")
    as Hfrom.
  { intros f (g & Hg & <- & <- & _)%synthesizeEnumCases_elem_of_id.
    apply list_elem_of_omap in Hg as (cw & Hcw & Hg).
    apply list_elem_of_fmap in Hcw as (column & -> & Hcolumn).
    exists column. split; [done|].
    unfold mapColumn in Hg.
    destruct (mapCodaTypeToFramerType column) as [g0|] eqn:Hg0; [|done].
    assert (field_id g0 = col_id column ∧ field_name g0 = col_name column)
      as [Hid Hname].
    { clear Hg. unfold mapCodaTypeToFramerType, plainField in Hg0.
      repeat case_match; by simplify_eq. }
    split_and!.
    - repeat case_match; simpl in *; by simplify_eq.
    - repeat case_match; simpl in *; by simplify_eq.
    - intros Hbutton%mapCodaTypeToFramerType_button. congruence. }
  split_and!.
  - intros column. apply mapCodaTypeToFramerType_button.
  - done.
  - intros Hnd column f Hcolumn Hbutton Hf Hid.
    destruct (Hfrom f Hf) as (column' & Hcolumn' & Hid' & _ & Hno).
    assert (column' = column) as ->; [|done].
    apply list_elem_of_lookup in Hcolumn as [i Hi].
    apply list_elem_of_lookup in Hcolumn' as [j Hj].
    assert (j = i) as ->; [|congruence].
    apply (NoDup_lookup _ j i (col_id column) Hnd).
    + change (map col_id columns) with (col_id <$> columns).
      rewrite list_lookup_fmap, Hj. simpl. congruence.
    + change (map col_id columns) with (col_id <$> columns).
      by rewrite list_lookup_fmap, Hi.
Qed.

(** X2: an item of a result has the id of a row, which is not empty, a slug
    that is not empty, and is not a draft. *)
Theorem items_have_id_and_slug (columns : list CodaColumnInput)
    (rows : list NormalizedRow) (slugFieldId : jsstring)
    (referenceMap : gmap jsstring jsstring) (use12HourTime : bool) :
  Forall
    (λ item,
       item_id item ≠ [] ∧ item_slug item ≠ [] ∧ item_draft item = false
       ∧ ∃ row, row ∈ rows ∧ row_id row = Some (item_id item)
           ∧ extractSlugValue (getProp (row_values row) slugFieldId)
             = Some (item_slug item))
    (items (buildFieldsAndItems columns rows slugFieldId referenceMap
              use12HourTime)).
Proof.
  apply Forall_forall. intros item. rewrite items_of_result.
  intros (row & Hrow & Hitem)%list_elem_of_omap.
  unfold itemOfRow in Hitem.
  destruct (rowSkipped slugFieldId row) eqn:Hskip; [done|].
  unfold rowSkipped, missingRowId, missingSlug in Hskip.
  apply orb_false_iff in Hskip as [Hid Hslug].
  destruct (row_id row) as [[|c rowId]|] eqn:Hrid; try done.
  destruct (extractSlugValue _) as [[|d slug]|] eqn:Hs; try done.
  injection Hitem as <-. simpl. split_and!; try done.
  exists row. by rewrite Hrid, Hs.
Qed.

End Invariants.

(** The scenarios of the specification.  A text column and one row give
    one item with the text as its slug; a scalar lookup column with the cells
    "Red" and "Blue" gives an enum field with these two cases, and the field
    data of each row hold the id of its case. *)
Theorem specification_scenarios :
  (let result :=
     @buildFieldsAndItems asciiRuntime
       [exampleColumn "c1" "Title" "text" false None]
       [exampleRow (Some (str "r1")) [("c1", VStr (str "Hello"))]%string]
       (str "c1") ∅ false in
   fields result = [exampleField "c1" "Title" TString None]
   ∧ items result =
     [{| item_id := str "r1"; item_slug := str "Hello"; item_draft := false;
         item_fieldData :=
           {[str "c1" := {| entry_type := TString;
                            entry_value := VStr (str "Hello") |}]} |}]
   ∧ warnings result = [] ∧ skippedCount result = 0%nat)
  ∧ (let result :=
       @buildFieldsAndItems asciiRuntime
         [exampleColumn "c1" "Title" "text" false None;
          exampleColumn "c2" "Color" "lookup" false None]
         [exampleRow (Some (str "r1"))
            [("c1", VStr (str "One")); ("c2", VStr (str "Red"))];
          exampleRow (Some (str "r2"))
            [("c1", VStr (str "Two")); ("c2", VStr (str "Blue"))]]%string
         (str "c1") ∅ false in
     map field_cases (fields result) =
     [None;
      Some [{| case_id := str "Red"; case_name := str "Red" |};
            {| case_id := str "Blue"; case_name := str "Blue" |}]]
     ∧ map (λ item, item_fieldData item !! str "c2") (items result) =
       [Some {| entry_type := TEnum; entry_value := VStr (str "Red") |};
        Some {| entry_type := TEnum; entry_value := VStr (str "Blue") |}]).
Proof. by vm_compute. Qed.

Lemma fields_come_from_columns_witness :
  map field_id
    (fields (@buildFieldsAndItems asciiRuntime
               [exampleColumn "c1" "Title" "text" false None;
                exampleColumn "c9" "Open" "Button" false None]
               [] (str "c1") ∅ false))
  = [str "c1"]
  ∧ @mapCodaTypeToFramerType asciiRuntime
      (exampleColumn "c9" "Open" "Button" false None) = None.
Proof.
  split; [by vm_compute|].
  apply (proj1 (@fields_come_from_columns asciiRuntime
    [exampleColumn "c1" "Title" "text" false None;
     exampleColumn "c9" "Open" "Button" false None] [] (str "c1") ∅ false)).
  by vm_compute.
Defined.

(** * Further properties *)

(** ** Ordered sets *)

Lemma foldl_setAdd_NoDup (l : list jsstring) : NoDup (foldl setAdd [] l).
Proof.
  rewrite foldl_setAdd_firstOccurrences. simpl. apply firstOccurrences_NoDup.
Qed.

Lemma elem_of_filter_bool {A} (p : A → bool) (l : list A) (x : A) :
  x ∈ List.filter p l ↔ x ∈ l ∧ p x = true.
Proof. by rewrite list_elem_of_In, filter_In, <- list_elem_of_In. Qed.


(** ** The Reference Map Builder *)

(** X3: a table id resolves to the collection id of the last entry of the
    reference map input that has this table id, among the entries whose table
    id and collection id are both not empty; to nothing when there is no such
    entry. *)
Theorem reference_map_last_entry_wins (es : list ReferenceMapEntry)
    (k : jsstring) :
  buildReferenceMap (Some es) !! k =
  framerCollectionId <$>
    last (filter (λ entry, codaTableId entry = k ∧ codaTableId entry ≠ []
                           ∧ framerCollectionId entry ≠ []) es).
Proof.
  unfold buildReferenceMap.
  induction es as [|entry es IH] using rev_ind; [done|].
  rewrite foldl_app, filter_app. simpl.
  rewrite filter_cons, filter_nil.
  destruct (nonEmpty (codaTableId entry) && nonEmpty (framerCollectionId entry))
    eqn:Hvalid.
  - apply andb_true_iff in Hvalid as [Ht Hc].
    apply nonEmpty_true in Ht, Hc.
    destruct (decide (codaTableId entry = k)) as [Hk|Hk].
    + rewrite decide_True by done. rewrite last_snoc. subst k.
      by rewrite lookup_insert_eq.
    + rewrite decide_False by tauto. rewrite app_nil_r.
      by rewrite lookup_insert_ne.
  - rewrite decide_False; [by rewrite app_nil_r|].
    intros (_ & Ht%nonEmpty_true & Hc%nonEmpty_true).
    by rewrite Ht, Hc in Hvalid.
Qed.

(** ** The normalizers *)

Lemma assoc_filter_keys {A} (p : jsstring → bool) (k : jsstring)
    (ps : list (jsstring * A)) :
  assoc k (List.filter (λ kv, p kv.1) ps) = if p k then assoc k ps else None.
Proof.
  induction ps as [|[k' v] ps IH]; simpl.
  - by destruct (p k).
  - destruct (p k') eqn:Hk'; simpl.
    + unfold streqb. case_bool_decide as Hk; [|done]. subst k'. by rewrite Hk'.
    + rewrite IH. unfold streqb. case_bool_decide as Hk; [|done]. subst k'.
      by rewrite Hk'.
Qed.

Lemma filter_keys_all {A} (p : jsstring → bool) (ps : list (jsstring * A)) :
  (∀ k, p k = false → assoc k ps = None) →
  List.filter (λ kv, p kv.1) ps = ps.
Proof.
  induction ps as [|[k' v] ps IH]; simpl; [done|]. intros Hall.
  destruct (p k') eqn:Hk'.
  - f_equal. apply IH. intros k Hk. specialize (Hall k Hk).
    unfold streqb in Hall. case_bool_decide; [done|]. done.
  - specialize (Hall k' Hk'). by rewrite streqb_refl in Hall.
Qed.

Section NormalizerProperties.
Context `{Runtime}.

(** The keys that the flat shape of a row reserves. *)
Local Abbreviation reserved :=
  (λ k : jsstring,
     streqb k (str "id") || streqb k (str "_id") || streqb k (str "values")).

(** X5: the two shapes of a row.  When the [values] property of a row is an
    object, its properties are the cells.  Otherwise the cells are the
    properties of the row itself, without [id], [_id] and [values]: a cell
    under one of these three keys cannot be read.  A flat row and the nested
    row with the same id and the same cells are normalized alike. *)
Theorem flat_and_nested_rows (ps : list (jsstring * value)) :
  let row := normalizeRow (VObj ps) in
  (∀ vs, getProp ps (str "values") = VObj vs → row_values row = vs)
  ∧ (isObject (getProp ps (str "values")) = false →
     ∀ k, getProp (row_values row) k
          = if reserved k then VUndefined else getProp ps k)
  ∧ (∀ idValue vs,
       (∀ k, reserved k = true → assoc k vs = None) →
       normalizeRow (VObj ((str "id", idValue) :: vs))
       = normalizeRow
           (VObj [(str "id", idValue); (str "values", VObj vs)])).
Proof.
  intros row. split_and!.
  - intros vs Hvs. subst row. unfold normalizeRow. simpl.
    by rewrite Hvs.
  - intros Hflat k. subst row. unfold normalizeRow. simpl.
    destruct (getProp ps (str "values")); try done; simpl.
    all: rewrite ?andb_false_r; simpl; unfold getProp;
      rewrite (assoc_filter_keys (λ k, negb (reserved k)));
      by destruct (reserved k).
  - intros idValue vs Hvs.
    pose proof (Hvs (str "_id") eq_refl) as Hid'.
    pose proof (Hvs (str "values") eq_refl) as Hvalues.
    unfold normalizeRow, resolveRowId. simpl.
    unfold getProp. simpl.
    rewrite Hid', Hvalues. simpl.
    rewrite (filter_keys_all (λ k, negb (reserved k))); [done|].
    intros k Hk. apply Hvs. by destruct (reserved k).
Qed.



(** X6: every raw row is added or skipped.  The id of a row is its [id] when
    that is a string.  A raw row that is not an object, an array, a row whose
    [id] is the empty string, and a row whose [id] is not a string and whose
    [_id] is no object with a [value], or one with a [value] that is null,
    undefined or the empty string, is skipped with the warning that names its
    index. *)
Theorem raw_rows_without_id_are_skipped (columns : list CodaColumnInput)
    (rawRows : list value) (slugFieldId : jsstring)
    (referenceMap : gmap jsstring jsstring) (use12HourTime : bool) :
  let result :=
    buildFieldsAndItems columns (normalizeRows rawRows) slugFieldId
      referenceMap use12HourTime in
  (length (items result) + skippedCount result)%nat = length rawRows
  ∧ (∀ ps s, getProp ps (str "id") = VStr s →
             row_id (normalizeRow (VObj ps)) = Some s)
  ∧ (∀ i raw, rawRows !! i = Some raw →
       match raw with
       | VObj ps =>
         match getProp ps (str "id") with
         | VStr s => s = []
         | _ =>
           match getProp ps (str "_id") with
           | VObj wrapper =>
             match assoc (str "value") wrapper with
             | Some (VStr s) => s = []
             | Some VNull | Some VUndefined | None => True
             | Some _ => False
             end
           | _ => True
           end
         end
       | _ => True
       end →
       str "Row at index " ++ intToString (Z.of_nat i)
         ++ str " is missing a row id and was skipped."
       ∈ warnings result).
Proof.
  intros result. split_and!.
  - subst result. rewrite items_of_result.
    unfold buildFieldsAndItems. cbn [skippedCount fields].
    rewrite processRows_skippedCount. cbn [st_skippedCount]. 
    rewrite Nat.add_0_l, omap_itemOfRow_length.
    unfold normalizeRows. by rewrite length_map.
  - intros ps s Hs. unfold normalizeRow, resolveRowId. simpl. rewrite Hs.
    by destruct (_ && _).
  - intros i raw Hi Hraw. subst result. unfold buildFieldsAndItems.
    cbn [warnings].
    apply (processRows_warning_id _ _ _ _ _ _ 0 i (normalizeRow raw)).
    + unfold normalizeRows.
      change (map normalizeRow rawRows) with (normalizeRow <$> rawRows).
      by rewrite list_lookup_fmap, Hi.
    + unfold missingRowId.
      assert (row_id (normalizeRow raw) = None
              ∨ row_id (normalizeRow raw) = Some []) as [-> | ->]; [|done..].
      unfold normalizeRow, resolveRowId.
      destruct raw as [| |b|x|s|xs|ps]; simpl;
        rewrite ?andb_false_r; try by left.
      assert (∀ a b : NormalizedRow, row_id
          (if truthy (getProp ps (str "values"))
              && isObject (getProp ps (str "values")) then a else b)
          = if truthy (getProp ps (str "values"))
               && isObject (getProp ps (str "values"))
            then row_id a else row_id b) as ->.
      { intros. by destruct (_ && _). }
      simpl. rewrite Tauto.if_same.
      destruct (getProp ps (str "id")) eqn:Hid;
          try (subst; by right);
          (destruct (getProp ps (str "_id")) as [| | | | | |wrapper] eqn:Hw;
           simpl; try (by left);
           destruct (assoc (str "value") wrapper) as [v|] eqn:Hv;
           [|rewrite bool_decide_eq_false_2; [by left|by intros [? ?]]];
           rewrite bool_decide_eq_true_2 by done;
           unfold getProp; rewrite Hv; simpl;
           destruct v; try done; subst; by right).
Qed.

End NormalizerProperties.

Lemma raw_rows_without_id_are_skipped_witness :
  let result :=
    @buildFieldsAndItems asciiRuntime
      [exampleColumn "c1" "Title" "text" false None]
      (@normalizeRows asciiRuntime
         [VObj [(str "id", VStr (str "r1")); (str "c1", VStr (str "One"))];
          VObj [(str "id", VNum 7%float); (str "c1", VStr (str "Two"))];
          VObj [(str "_id", VObj [(str "value", VNull)]);
                (str "c1", VStr (str "Three"))];
          VStr (str "row")])
      (str "c1") ∅ false in
  map item_id (items result) = [str "r1"]
  ∧ skippedCount result = 3%nat
  ∧ str "Row at index 1 is missing a row id and was skipped."
    ∈ warnings result
  ∧ str "Row at index 2 is missing a row id and was skipped."
    ∈ warnings result
  ∧ str "Row at index 3 is missing a row id and was skipped."
    ∈ warnings result.
Proof.
  pose proof (proj2 (proj2 (@raw_rows_without_id_are_skipped asciiRuntime
    [exampleColumn "c1" "Title" "text" false None]
    [VObj [(str "id", VStr (str "r1")); (str "c1", VStr (str "One"))];
     VObj [(str "id", VNum 7%float); (str "c1", VStr (str "Two"))];
     VObj [(str "_id", VObj [(str "value", VNull)]);
           (str "c1", VStr (str "Three"))];
     VStr (str "row")]
    (str "c1") ∅ false))) as Hskipped.
  split_and!; [by vm_compute|by vm_compute|..].
  - exact (Hskipped 1%nat _ eq_refl I).
  - exact (Hskipped 2%nat _ eq_refl I).
  - exact (Hskipped 3%nat _ eq_refl I).
Defined.
(** ** Merging twice *)

(** The field filter and the merge commute. *)
Lemma compatibleFields_merge (sourceFields existingFields : list Field) :
  compatibleFields (mergeFieldsWithExistingFields sourceFields existingFields)
  = mergeFieldsWithExistingFields (compatibleFields sourceFields)
      existingFields.
Proof.
  unfold compatibleFields, mergeFieldsWithExistingFields.
  induction sourceFields as [|s sourceFields IH]; [done|].
  cbn [map List.filter]. rewrite IH.
  assert (∀ m : Field,
    m = match fieldMapOf existingFields !! field_id s with
        | Some existingField =>
          {| field_id := field_id s; field_name := field_name existingField;
             field_type := field_type s; field_cases := field_cases s;
             field_collectionId := field_collectionId s;
             field_allowedFileTypes := field_allowedFileTypes s |}
        | None => s
        end →
    field_type m = field_type s
    ∧ field_collectionId m = field_collectionId s) as Hsame.
  { intros m ->. by destruct (fieldMapOf existingFields !! field_id s). }
  destruct (Hsame _ eq_refl) as [-> ->].
  by destruct (negb _).
Qed.

Lemma merge_merge (sourceFields existingFields : list Field) :
  NoDup (map field_id sourceFields) →
  mergeFieldsWithExistingFields sourceFields
    (mergeFieldsWithExistingFields sourceFields existingFields)
  = mergeFieldsWithExistingFields sourceFields existingFields.
Proof.
  intros Hnd.
  set (merged := mergeFieldsWithExistingFields sourceFields existingFields).
  assert (NoDup (map field_id merged)) as Hndm
    by (subst merged; by rewrite merge_ids).
  apply list_eq. intros i. rewrite merge_lookup.
  destruct (sourceFields !! i) as [s|] eqn:Hs; simpl.
  - assert (∃ m, merged !! i = Some m ∧ field_id m = field_id s
              ∧ field_type m = field_type s ∧ field_cases m = field_cases s
              ∧ field_collectionId m = field_collectionId s
              ∧ field_allowedFileTypes m = field_allowedFileTypes s)
      as (m & Hm & Hid & Hty & Hca & Hco & Hal).
    { subst merged. rewrite merge_lookup, Hs. simpl.
      eexists. split; [done|]. by destruct (fieldMapOf existingFields !! _). }
    rewrite Hm. f_equal.
    rewrite <- Hid, (fieldMapOf_NoDup merged m Hndm)
      by (by apply list_elem_of_lookup_2 in Hm).
    destruct m; simpl in *; by subst.
  - symmetry. apply lookup_ge_None_2.
    subst merged. rewrite <- (length_map field_id), merge_ids, length_map.
    by apply lookup_ge_None_1.
Qed.

Lemma compatibleFields_ids_NoDup (fs : list Field) :
  NoDup (map field_id fs) → NoDup (map field_id (compatibleFields fs)).
Proof.
  intros Hnd. refine (sublist_NoDup _ _ Hnd _).
  unfold compatibleFields. induction fs as [|f fs IH]; simpl; [done|].
  destruct (negb _); simpl.
  - apply sublist_skip, IH. by apply NoDup_cons in Hnd as [_ ?].
  - apply sublist_cons, IH. by apply NoDup_cons in Hnd as [_ ?].
Qed.

(** X19: when the ids of the local fields are distinct, merging them with
    the fields that a first merge gave changes nothing, and the fields written
    after a second merge, with the written fields of the first as the remote
    ones, are the fields written the first time; with no remote field the
    merge gives the local fields. *)
Theorem merge_is_stable (sourceFields existingFields : list Field) :
  NoDup (map field_id sourceFields) →
  let merged := mergeFieldsWithExistingFields sourceFields existingFields in
  mergeFieldsWithExistingFields sourceFields merged = merged
  ∧ compatibleFields
      (mergeFieldsWithExistingFields sourceFields (compatibleFields merged))
    = compatibleFields merged
  ∧ mergeFieldsWithExistingFields sourceFields [] = sourceFields.
Proof.
  intros Hnd merged. split_and!.
  - by apply merge_merge.
  - subst merged. rewrite !compatibleFields_merge.
    by apply merge_merge, compatibleFields_ids_NoDup.
  - apply list_eq. intros i. rewrite merge_lookup.
    destruct (sourceFields !! i) as [s|]; simpl; [|done].
    by rewrite (proj2 (fieldMapOf_None [] (field_id s)))
      by (intros ? ?%elem_of_nil; done).
Qed.

Lemma merge_is_stable_witness :
  let sourceFields :=
    [exampleField "a" "Local A" TString None;
     exampleField "b" "Local B" TMultiCollectionReference None] in
  let existingFields := [exampleField "a" "Remote A" TNumber None] in
  let merged := mergeFieldsWithExistingFields sourceFields existingFields in
  merged = [exampleField "a" "Remote A" TString None;
            exampleField "b" "Local B" TMultiCollectionReference None]
  ∧ mergeFieldsWithExistingFields sourceFields merged = merged.
Proof.
  split; [by vm_compute|].
  apply (merge_is_stable
           [exampleField "a" "Local A" TString None;
            exampleField "b" "Local B" TMultiCollectionReference None]
           [exampleField "a" "Remote A" TNumber None]).
  apply (bool_decide_unpack _). by vm_compute.
Defined.

(** ** The shape of the fields *)

Section ShapeProperties.
Context `{Runtime}.

Lemma mapCodaTypeToFramerType_shape (column : CodaColumnInput) (f : Field) :
  mapCodaTypeToFramerType column = Some f → wellShaped f.
Proof.
  unfold mapCodaTypeToFramerType, plainField, wellShaped.
  intros Hf.
  repeat case_match; simplify_eq; simpl;
    (split_and!; [done| |  |done|done]); split; (try done);
    try (by intros [? ?]); by eexists.
Qed.

Lemma mapColumn_shape (referenceMap : gmap jsstring jsstring)
    (column : CodaColumnInput) (f : Field) :
  (mapColumn referenceMap column).1 = Some f → wellShaped f.
Proof.
  unfold mapColumn.
  destruct (mapCodaTypeToFramerType column) as [g|] eqn:Hg; [|done].
  apply mapCodaTypeToFramerType_shape in Hg.
  repeat case_match; simpl; intros; simplify_eq; try done.
  unfold wellShaped; simpl. split_and!; done.
Qed.

Lemma synthesizeEnumCases_shape (columns : list CodaColumnInput)
    (rows : list NormalizedRow) (fs : list Field) :
  Forall wellShaped fs → Forall wellShaped (synthesizeEnumCases columns rows fs).
Proof.
  intros Hfs. unfold synthesizeEnumCases.
  destruct (List.filter _ fs) as [|f0 l]; [done|].
  apply Forall_forall. intros f (g & -> & Hg)%list_elem_of_fmap.
  pose proof (proj1 (Forall_forall _ _) Hfs g Hg) as Hshape.
  destruct (isLookupField columns g); [|done].
  destruct (field_cases g) eqn:Hcases; [|done].
  destruct Hshape as (? & Hc & ? & ? & ?).
  unfold wellShaped; simpl. split_and!; try done.
  split; [intros _; apply Hc; by rewrite Hcases|by eexists].
Qed.

Lemma fields_wellShaped (columns : list CodaColumnInput)
    (rows : list NormalizedRow) (slugFieldId : jsstring)
    (referenceMap : gmap jsstring jsstring) (use12HourTime : bool) :
  Forall wellShaped
    (fields (buildFieldsAndItems columns rows slugFieldId referenceMap
               use12HourTime)).
Proof.
  unfold buildFieldsAndItems. cbn [fields].
  apply synthesizeEnumCases_shape, Forall_forall.
  intros f (cw & Hcw & Hf)%list_elem_of_omap.
  apply list_elem_of_fmap in Hcw as (column & -> & _).
  by apply (mapColumn_shape referenceMap column).
Qed.

Lemma compatibleFields_all (fs : list Field) :
  Forall (λ f, field_type f = TMultiCollectionReference →
               is_Some (field_collectionId f)) fs →
  compatibleFields fs = fs.
Proof.
  unfold compatibleFields. induction 1 as [|f fs Hf _ IH]; simpl; [done|].
  rewrite IH. case_bool_decide as Ht; simpl; [|done].
  by rewrite bool_decide_eq_true_2 by auto.
Qed.

(** The field filter of [setCollectionFields] drops no field of a result. *)
Lemma compatibleFields_result (columns : list CodaColumnInput)
    (rows : list NormalizedRow) (slugFieldId : jsstring)
    (referenceMap : gmap jsstring jsstring) (use12HourTime : bool)
    (existingFields : list Field) :
  let mergedFields :=
    mergeFieldsWithExistingFields
      (fields (buildFieldsAndItems columns rows slugFieldId referenceMap
                 use12HourTime)) existingFields in
  compatibleFields mergedFields = mergedFields.
Proof.
  intros mergedFields. subst mergedFields.
  rewrite compatibleFields_merge. f_equal.
  apply compatibleFields_all, Forall_forall. intros f Hf Ht.
  pose proof (fields_wellShaped columns rows slugFieldId referenceMap
                use12HourTime) as Hshape.
  destruct (proj1 (Forall_forall _ _) Hshape f Hf) as (_ & _ & Hc & _).
  by apply Hc.
Qed.

(** X7: the fields of a result are well shaped: none is a collectionReference
    field; a field has cases exactly when it is an enum field, a collection id
    exactly when it is a multiCollectionReference field, and that id is not
    empty; a file field allows every file type and no other field has allowed
    file types.  So the field filter of [setCollectionFields] drops no field
    of a result, merged or not. *)
Theorem fields_are_well_shaped (columns : list CodaColumnInput)
    (rows : list NormalizedRow) (slugFieldId : jsstring)
    (referenceMap : gmap jsstring jsstring) (use12HourTime : bool)
    (existingFields : list Field) :
  let result :=
    buildFieldsAndItems columns rows slugFieldId referenceMap use12HourTime in
  let mergedFields :=
    mergeFieldsWithExistingFields (fields result) existingFields in
  Forall wellShaped (fields result)
  ∧ compatibleFields (fields result) = fields result
  ∧ compatibleFields mergedFields = mergedFields.
Proof.
  intros result mergedFields.
  pose proof (compatibleFields_result columns rows slugFieldId referenceMap
                use12HourTime) as Hall.
  split_and!.
  - apply fields_wellShaped.
  - specialize (Hall []). simpl in Hall.
    assert (∀ fs, mergeFieldsWithExistingFields fs [] = fs) as Hnil.
    { intros fs. apply list_eq. intros i. rewrite merge_lookup.
      destruct (fs !! i) as [s|]; simpl; [|done].
      by rewrite (proj2 (fieldMapOf_None [] (field_id s)))
        by (intros ? ?%elem_of_nil; done). }
    by rewrite Hnil in Hall.
  - apply Hall.
Qed.

End ShapeProperties.

(** ** Trimmed texts *)

Lemma dropWhile_idemp {A} (p : A → bool) (l : list A) :
  dropWhile p (dropWhile p l) = dropWhile p l.
Proof.
  induction l as [|x l IH]; simpl; [done|].
  destruct (p x) eqn:Hx; [done|]. simpl. by rewrite Hx.
Qed.

Lemma dropWhile_suffix {A} (p : A → bool) (l : list A) :
  ∃ a, l = a ++ dropWhile p l ∧ forallb p a = true.
Proof.
  induction l as [|x l (a & Hl & Ha)]; simpl; [by exists []|].
  destruct (p x) eqn:Hx.
  - exists (x :: a). simpl. rewrite Hx, Ha. by rewrite <- Hl.
  - by exists [].
Qed.

(** Dropping at the end leaves the start as it is, when the start is not
    dropped. *)
Lemma dropWhile_rev_head {A} (p : A → bool) (l : list A) :
  dropWhile p l = l →
  dropWhile p (rev (dropWhile p (rev l))) = rev (dropWhile p (rev l)).
Proof.
  intros Hl. destruct (dropWhile_suffix p (rev l)) as (a & Hrev & Ha).
  destruct (rev (dropWhile p (rev l))) as [|x r] eqn:Hr; [done|].
  assert (l = (x :: r) ++ rev a) as Hl'.
  { rewrite <- (rev_involutive l), Hrev, rev_app_distr. by rewrite Hr. }
  rewrite Hl' in Hl. simpl in *. destruct (p x); [|done].
  exfalso. assert (length (dropWhile p (r ++ rev a)) ≤ length (r ++ rev a))%nat.
  { clear. generalize (r ++ rev a). intros l.
    induction l as [|y l IH]; simpl; [done|]. destruct (p y); simpl; lia. }
  rewrite Hl in H. simpl in H. lia.
Qed.

Lemma trim_idemp (s : jsstring) : trim (trim s) = trim s.
Proof.
  unfold trim, trimEnd, trimStart.
  rewrite (dropWhile_rev_head _ (dropWhile isWhiteSpace s))
    by apply dropWhile_idemp.
  by rewrite rev_involutive, dropWhile_idemp.
Qed.

Section EntryProperties.
Context `{Runtime}.

Lemma isValidAssetUrl_trim (url : jsstring) :
  isValidAssetUrl (trim url) = isValidAssetUrl url.
Proof. unfold isValidAssetUrl. by rewrite trim_idemp. Qed.

Lemma isLikelyImageUrl_trim (url : jsstring) :
  isLikelyImageUrl (trim url) = isLikelyImageUrl url.
Proof. unfold isLikelyImageUrl. by rewrite trim_idemp. Qed.

Lemma isValidAssetUrl_nonEmpty (url : jsstring) :
  isValidAssetUrl url = true → trim url ≠ [].
Proof. unfold isValidAssetUrl. intros Hv Ht. by rewrite Ht in Hv. Qed.

Lemma isLikelyImageUrl_nonEmpty (url : jsstring) :
  isLikelyImageUrl url = true → trim url ≠ [].
Proof. unfold isLikelyImageUrl. intros Hv Ht. by rewrite Ht in Hv. Qed.

(** X9: the entry of an image or file field holds a trimmed text: the empty
    text for a blank cell, and otherwise a text that is not empty and that
    [isValidAssetUrl] accepts or, for an image field, [isLikelyImageUrl]. *)
Theorem asset_entries_are_urls (v : value) (field : Field)
    (codaColumnType : jsstring) (use12HourTime : bool) (e : FieldDataEntry) :
  field_type field = TImage ∨ field_type field = TFile →
  transformCodaValue v field codaColumnType use12HourTime = Some e →
  ∃ url, entry_value e = VStr url ∧ trim url = url
    ∧ (if isBlank v then url = []
       else url ≠ []
            ∧ (isValidAssetUrl url
               || bool_decide (field_type field = TImage)
                  && isLikelyImageUrl url) = true).
Proof.
  unfold transformCodaValue. intros Htype.
  destruct (isBlank v).
  - destruct Htype as [-> | ->]; simpl; intros [= <-]; by exists [].
  - destruct Htype as [-> | ->].
    + destruct (nonEmpty (imageCandidate v)
                && (isValidAssetUrl (imageCandidate v)
                    || isLikelyImageUrl (imageCandidate v))) eqn:Hok; [|done].
      intros [= <-]. exists (trim (imageCandidate v)). simpl.
      apply andb_true_iff in Hok as [_ Hok].
      rewrite trim_idemp, isValidAssetUrl_trim, isLikelyImageUrl_trim.
      split_and!; [done..| |done].
      apply orb_true_iff in Hok as [Hok|Hok].
      * by apply isValidAssetUrl_nonEmpty.
      * by apply isLikelyImageUrl_nonEmpty.
    + destruct (nonEmpty (fileCandidate v)
                && isValidAssetUrl (fileCandidate v)) eqn:Hok; [|done].
      intros [= <-]. exists (trim (fileCandidate v)). simpl.
      apply andb_true_iff in Hok as [_ Hok].
      rewrite trim_idemp, isValidAssetUrl_trim, Hok.
      split_and!; [done..| |done].
      by apply isValidAssetUrl_nonEmpty.
Qed.

Lemma pushIfTruthy_nonEmpty (o : option jsstring) :
  Forall (λ id, id ≠ []) (pushIfTruthy o) ∧ (length (pushIfTruthy o) ≤ 1)%nat.
Proof.
  destruct o as [[|c s]|]; simpl; split; try lia; by repeat constructor.
Qed.

(** X10: the entry of a multiCollectionReference field is always there and
    holds the reference ids of the cell, none for a blank cell; a reference id
    is never empty, an array gives at most one id per element and any other
    value at most one; of an array of strings the ids are the strings that are
    not empty. *)
Theorem reference_entries_hold_ids (v : value) (field : Field)
    (codaColumnType : jsstring) (use12HourTime : bool) :
  field_type field = TMultiCollectionReference →
  transformCodaValue v field codaColumnType use12HourTime
  = Some {| entry_type := TMultiCollectionReference;
            entry_value :=
              VArr (map VStr (if isBlank v then []
                              else extractReferenceIds v)) |}
  ∧ Forall (λ id, id ≠ []) (extractReferenceIds v)
  ∧ (length (extractReferenceIds v)
     ≤ match v with VArr xs => length xs | _ => 1 end)%nat
  ∧ (∀ ids, extractReferenceIds (VArr (map VStr ids))
            = List.filter nonEmpty ids).
Proof.
  intros Htype. split_and!.
  - unfold transformCodaValue. rewrite Htype. by destruct (isBlank v).
  - unfold extractReferenceIds. destruct v; try apply pushIfTruthy_nonEmpty.
    induction xs as [|x xs IH]; simpl; [done|].
    apply Forall_app. split; [apply pushIfTruthy_nonEmpty|done].
  - unfold extractReferenceIds. destruct v; try apply pushIfTruthy_nonEmpty.
    induction xs as [|x xs IH]; simpl; [done|].
    rewrite length_app.
    pose proof (proj2 (pushIfTruthy_nonEmpty (processItem x))). lia.
  - intros ids. unfold extractReferenceIds.
    induction ids as [|[|c s] ids IH]; simpl; [done|done|]. by rewrite IH.
Qed.


End EntryProperties.

Lemma asset_entries_are_urls_witness :
  ∃ url,
    VStr (str "https://cdn.example.com/a.png") = VStr url ∧ trim url = url
    ∧ url ≠ []
    ∧ (isValidAssetUrl url || true && isLikelyImageUrl url) = true.
Proof.
  exact (@asset_entries_are_urls asciiRuntime
           (VStr (str " https://cdn.example.com/a.png "))
           (exampleField "c2" "Cover" TImage None) (str "image") false
           {| entry_type := TImage;
              entry_value := VStr (str "https://cdn.example.com/a.png") |}
           (or_introl eq_refl) eq_refl).
Defined.

Lemma reference_entries_hold_ids_witness :
  @transformCodaValue asciiRuntime
    (VArr [VStr (str "i-1"); VStr []; VNum 3%float;
           VObj [(str "rowId", VStr (str "i-2"))]])
    (exampleField "c3" "Authors" TMultiCollectionReference
       (Some (str "coll-9"))) (str "lookup") false
  = Some {| entry_type := TMultiCollectionReference;
            entry_value := VArr [VStr (str "i-1"); VStr (str "i-2")] |}.
Proof.
  apply (@reference_entries_hold_ids asciiRuntime
           (VArr [VStr (str "i-1"); VStr []; VNum 3%float;
                  VObj [(str "rowId", VStr (str "i-2"))]])
           (exampleField "c3" "Authors" TMultiCollectionReference
              (Some (str "coll-9"))) (str "lookup") false eq_refl).
Defined.
(** ** Enum entries *)

Lemma find_Some_elem_of {A} (p : A → bool) (l : list A) (x : A) :
  List.find p l = Some x → x ∈ l ∧ p x = true.
Proof. intros Hx%find_some. by rewrite list_elem_of_In. Qed.

Lemma find_None_elem_of {A} (p : A → bool) (l : list A) :
  List.find p l = None → ∀ x, x ∈ l → p x = false.
Proof.
  intros Hnone x Hx%list_elem_of_In. exact (find_none p l Hnone x Hx).
Qed.

Section EnumProperties.
Context `{Runtime}.

(** A label that is the id of a case is its own entry. *)
Lemma coerceEnum_case_id (v : value) (field : Field) (cases : list EnumCase) :
  field_cases field = Some cases → enumLabel v ≠ [] →
  enumLabel v ∈ map case_id cases →
  coerceEnum v field
  = Some {| entry_type := TEnum; entry_value := VStr (enumLabel v) |}.
Proof.
  intros Hcases Hne%nonEmpty_true (c & Hl & Hc)%list_elem_of_fmap.
  unfold coerceEnum. rewrite Hcases, Hne.
  destruct (List.find (λ item, streqb (case_id item) (enumLabel v)) cases)
    as [c'|] eqn:Hfind.
  - apply find_Some_elem_of in Hfind as [_ Heq%streqb_true].
    destruct (List.find _ cases); simpl; by rewrite Heq.
  - apply (find_None_elem_of _ _ Hfind), streqb_false in Hc. congruence.
Qed.

(** X11: the entry of an enum field.  An array gives no entry, and so does
    a cell that is not blank and has no label.  A cell with a label gives an
    entry: the label when it is the id of a case of the field; else the id of
    the first case with the label as its name; else, and for a field without
    cases, the label itself, which then names no case. *)
Theorem enum_entry_resolution (v : value) (field : Field)
    (codaColumnType : jsstring) (use12HourTime : bool) :
  field_type field = TEnum →
  let entry := transformCodaValue v field codaColumnType use12HourTime in
  let label := enumLabel v in
  (isArray v = true → entry = None)
  ∧ (isBlank v = false → label = [] → entry = None)
  ∧ (isBlank v = false → label ≠ [] →
     ∃ x, entry = Some {| entry_type := TEnum; entry_value := VStr x |}
       ∧ ∀ cases, field_cases field = Some cases →
           (label ∈ map case_id cases → x = label)
           ∧ (label ∉ map case_id cases →
              ∀ c, List.find (λ item, streqb (case_name item) label) cases
                   = Some c → x = case_id c)
           ∧ (label ∉ map case_id cases → label ∉ map case_name cases →
              x = label)).
Proof.
  intros Htype entry label. subst entry.
  unfold transformCodaValue. rewrite Htype. split_and!.
  - destruct v; try done. intros _. simpl.
    unfold coerceEnum, enumLabel, stringProp. simpl.
    by destruct (field_cases field).
  - intros -> Hlabel. unfold coerceEnum. fold label. rewrite Hlabel. simpl.
    by destruct (field_cases field).
  - intros -> Hlabel. unfold coerceEnum. fold label.
    apply nonEmpty_true in Hlabel as Hne. rewrite Hne.
    destruct (field_cases field) as [cases|] eqn:Hcases; simpl;
      [|by exists label].
    destruct (List.find (λ item, streqb (case_id item) label) cases)
      as [c|] eqn:Hid; simpl.
    + apply find_Some_elem_of in Hid as [Hc Hid%streqb_true].
      exists (case_id c). split; [by destruct (List.find _ cases)|].
      intros ? [= <-]. split_and!; [done|..];
        intros Hno; exfalso; apply Hno, list_elem_of_fmap; eauto.
    + pose proof (find_None_elem_of _ _ Hid) as Hnoid.
      destruct (List.find (λ item, streqb (case_name item) label) cases)
        as [c|] eqn:Hname; simpl.
      * pose proof (find_Some_elem_of _ _ _ Hname) as [Hc Hn%streqb_true].
        exists (case_id c). split; [reflexivity|].
        intros ? [= <-]. split_and!.
        -- intros (c' & Hl & Hc')%list_elem_of_fmap.
           apply Hnoid, streqb_false in Hc'. congruence.
        -- intros _ c0 Hc0. rewrite Hname in Hc0. by injection Hc0 as <-.
        -- intros _ Hno. exfalso. apply Hno, list_elem_of_fmap. eauto.
      * pose proof (find_None_elem_of _ _ Hname) as Hnoname.
        exists label. split; [reflexivity|].
        intros ? [= <-]. split_and!; [done| |done].
        intros _ c Hc. by rewrite Hname in Hc.
Qed.
Lemma lookup_field_of_result (columns : list CodaColumnInput)
    (rows : list NormalizedRow) (slugFieldId : jsstring)
    (referenceMap : gmap jsstring jsstring) (use12HourTime : bool)
    (column : CodaColumnInput) (mappedField : Field) :
  column ∈ columns →
  toLowerCase (fmt_type (col_format column)) = str "lookup" →
  mapCodaTypeToFramerType column = Some mappedField →
  field_type mappedField = TEnum →
  {| field_id := col_id column; field_name := col_name column;
     field_type := TEnum;
     field_cases :=
       Some (map (λ label, {| case_id := label; case_name := label |})
               (List.filter nonEmpty
                  (firstOccurrences [] (lookupLabels (col_id column) rows))));
     field_collectionId := None; field_allowedFileTypes := None |}
  ∈ fields (buildFieldsAndItems columns rows slugFieldId referenceMap
              use12HourTime).
Proof.
  intros Hc Hlookup Hmap Hty.
  destruct (mapCodaTypeToFramerType_lookup_enum _ _ Hlookup Hmap Hty)
    as [Harr ->].
  simpl.
  set (f := {| field_id := col_id column; field_name := col_name column;
               field_type := TEnum; field_cases := Some [];
               field_collectionId := None;
               field_allowedFileTypes := None |}).
  apply (synthesizeEnumCases_lookup columns rows _ f []); [|  |done].
  - apply list_elem_of_omap. exists (mapColumn referenceMap column).
    split; [by apply list_elem_of_fmap; eauto|].
    unfold mapColumn. by rewrite Hmap.
  - unfold isLookupField. apply existsb_exists. exists column.
    split; [by apply list_elem_of_In|].
    by rewrite streqb_refl, Hlookup, streqb_refl.
Qed.

(** The label that the transformer reads from a text or from an object with
    a name is a label that the scan has read. *)
Lemma enumLabel_scanned (fieldId : jsstring) (row : NormalizedRow)
    (rows : list NormalizedRow) (cell : value) :
  row ∈ rows → assoc fieldId (row_values row) = Some cell →
  match cell with
  | VStr _ => True
  | VObj ps => ∃ name, getProp ps (str "name") = VStr name
  | _ => False
  end →
  enumLabel cell ≠ [] → enumLabel cell ∈ lookupLabels fieldId rows.
Proof.
  intros Hrow Hcell Hshape Hne. unfold lookupLabels.
  apply list_elem_of_In, in_flat_map. exists row.
  split; [by apply list_elem_of_In|].
  unfold rowLabels, getProp. rewrite Hcell. simpl.
  destruct cell as [| | | |s| |ps]; try done.
  - unfold enumLabel in *. destruct s as [|c s]; [done|]. simpl. by left.
  - destruct Hshape as [name Hname].
    assert (∀ o : option jsstring, Some name ∪ o = Some name) as Hunion
      by (by intros [?|]).
    unfold enumLabel, extractLookupValues, lookupLabel, stringProp in *.
    simpl in *. rewrite Hname in *. simpl in *. rewrite !Hunion in *.
    simpl in *. destruct name as [|c name]; [done|]. simpl. by left.
Qed.

(** X12: the field of a scalar lookup column and the entries of its cells,
    when the column ids are distinct.  For a cell that is a text, or an object
    with a string as its [name], the entry is of type enum and holds the empty
    text or the id of a case of the field: the cases that the rows give cover
    the entries that the rows give. *)
Theorem lookup_entries_are_case_ids (columns : list CodaColumnInput)
    (rows : list NormalizedRow) (slugFieldId : jsstring)
    (referenceMap : gmap jsstring jsstring) (use12HourTime : bool)
    (column : CodaColumnInput) (mappedField : Field) :
  NoDup (map col_id columns) →
  column ∈ columns →
  toLowerCase (fmt_type (col_format column)) = str "lookup" →
  mapCodaTypeToFramerType column = Some mappedField →
  field_type mappedField = TEnum →
  let result :=
    buildFieldsAndItems columns rows slugFieldId referenceMap use12HourTime in
  ∃ f cases,
    f ∈ fields result ∧ field_id f = col_id column
    ∧ field_cases f = Some cases
    ∧ ∀ item, item ∈ items result →
        ∃ row, row ∈ rows ∧ row_id row = Some (item_id item)
          ∧ ∀ cell e,
              assoc (col_id column) (row_values row) = Some cell →
              match cell with
              | VStr _ => True
              | VObj ps => ∃ name, getProp ps (str "name") = VStr name
              | _ => False
              end →
              item_fieldData item !! col_id column = Some e →
              entry_type e = TEnum
              ∧ (entry_value e = VStr []
                 ∨ ∃ c, c ∈ cases ∧ entry_value e = VStr (case_id c)).
Proof.
  intros Hnd Hc Hlookup Hmap Hty result.
  pose proof (lookup_field_of_result columns rows slugFieldId referenceMap
                use12HourTime column mappedField Hc Hlookup Hmap Hty) as Hf.
  eexists _, _. split_and!; [exact Hf|done|done|].
  intros item Hitem.
  destruct (item_of_result columns rows slugFieldId referenceMap use12HourTime
              item Hitem) as (row & Hrow & Hid & Hdata).
  exists row. split_and!; [done..|].
  intros cell e Hcell Hshape. rewrite Hdata, buildFieldData_lookup, Hcell.
  match type of Hf with ?f ∈ _ =>
    rewrite (fieldMapOf_NoDup _ f (fields_ids_NoDup columns rows slugFieldId
               referenceMap use12HourTime Hnd) Hf : fieldMapOf _ !! col_id column = Some f)
  end.
  unfold transformCodaValue. cbn [field_type].
  destruct (isBlank cell) eqn:Hblank.
  - intros [= <-]. split; [done|by left].
  - destruct (decide (enumLabel cell = [])) as [Hempty|Hne].
    + unfold coerceEnum. rewrite Hempty. simpl. done.
    + pose proof (enumLabel_scanned (col_id column) row rows cell Hrow Hcell
                    Hshape Hne) as Hscanned.
      assert (enumLabel cell ∈
                List.filter nonEmpty
                  (firstOccurrences [] (lookupLabels (col_id column) rows)))
        as Hin.
      { apply elem_of_filter_bool. split; [|by apply nonEmpty_true].
        apply firstOccurrences_elem_of. split; [done|apply not_elem_of_nil]. }
      erewrite coerceEnum_case_id; [|done|done|].
      * intros [= <-]. split; [done|]. right.
        exists {| case_id := enumLabel cell; case_name := enumLabel cell |}.
        split; [|done]. apply list_elem_of_fmap. eauto.
      * rewrite map_map. simpl. by rewrite map_id.
Qed.

End EnumProperties.

Lemma enum_entry_resolution_witness :
  let field :=
    {| field_id := str "c4"; field_name := str "Status"; field_type := TEnum;
       field_cases :=
         Some [{| case_id := str "s1"; case_name := str "Open" |};
               {| case_id := str "s2"; case_name := str "Done" |}];
       field_collectionId := None; field_allowedFileTypes := None |} in
  @transformCodaValue asciiRuntime (VArr [VStr (str "Done")]) field
    (str "select") false = None
  ∧ @transformCodaValue asciiRuntime (VStr (str " Done ")) field
      (str "select") false
    = Some {| entry_type := TEnum; entry_value := VStr (str "s2") |}.
Proof.
  split; [|by vm_compute].
  refine (proj1 (@enum_entry_resolution asciiRuntime (VArr [VStr (str "Done")])
           {| field_id := str "c4"; field_name := str "Status";
              field_type := TEnum;
              field_cases :=
                Some [{| case_id := str "s1"; case_name := str "Open" |};
                      {| case_id := str "s2"; case_name := str "Done" |}];
              field_collectionId := None; field_allowedFileTypes := None |}
           (str "select") false eq_refl) eq_refl).
Defined.

Lemma lookup_entries_are_case_ids_witness :
  let columns :=
    [exampleColumn "c1" "Title" "text" false None;
     exampleColumn "c2" "Color" "lookup" false None] in
  let rows :=
    [exampleRow (Some (str "r1"))
       [("c1", VStr (str "One")); ("c2", VStr (str "Red"))];
     exampleRow (Some (str "r2"))
       [("c1", VStr (str "Two"));
        ("c2", VObj [(str "name", VStr (str " Blue "))])]]%string in
  let result :=
    @buildFieldsAndItems asciiRuntime columns rows (str "c1") ∅ false in
  map (λ item, item_fieldData item !! str "c2") (items result)
  = [Some {| entry_type := TEnum; entry_value := VStr (str "Red") |};
     Some {| entry_type := TEnum; entry_value := VStr (str "Blue") |}]
  ∧ ∃ f cases,
      f ∈ fields result ∧ field_id f = str "c2"
      ∧ field_cases f = Some cases.
Proof.
  split; [by vm_compute|].
  destruct (@lookup_entries_are_case_ids asciiRuntime
              [exampleColumn "c1" "Title" "text" false None;
               exampleColumn "c2" "Color" "lookup" false None]
              [exampleRow (Some (str "r1"))
                 [("c1", VStr (str "One")); ("c2", VStr (str "Red"))];
               exampleRow (Some (str "r2"))
                 [("c1", VStr (str "Two"));
                  ("c2", VObj [(str "name", VStr (str " Blue "))])]]%string
              (str "c1") ∅ false
              (exampleColumn "c2" "Color" "lookup" false None)
              {| field_id := str "c2"; field_name := str "Color";
                 field_type := TEnum; field_cases := Some [];
                 field_collectionId := None;
                 field_allowedFileTypes := None |})
    as (f & cases & Hf & Hid & Hcases & _).
  - apply (bool_decide_unpack _). by vm_compute.
  - right; left.
  - by vm_compute.
  - by vm_compute.
  - by vm_compute.
  - by exists f, cases.
Defined.
(** ** Plain text and Markdown *)

(** A global replacement whose expression matches at no code unit of the
    text leaves the text as it is. *)
Lemma replaceAll_no_match (m : jsstring → option (jsstring * nat))
    (s : jsstring) :
  (∀ c r, c ∈ s → m (c :: r) = None) → replaceAll m 0 s = s.
Proof.
  induction s as [|c s IH]; [done|]. intros Hm. cbn [replaceAll].
  rewrite (Hm c s) by left. f_equal. apply IH.
  intros c' r Hc'. apply Hm. by right.
Qed.

Section PlainText.
Context `{Runtime}.

Lemma matchLink_head (c : N) (r : jsstring) :
  c ≠ cu "[" → matchLink (c :: r) = None.
Proof.
  intros Hc. unfold matchLink.
  by rewrite (proj2 (N.eqb_neq c (cu "[")) Hc).
Qed.

Lemma matchFenced_head (c : N) (r : jsstring) :
  c ≠ backtick → matchFenced (c :: r) = None.
Proof.
  intros Hc. unfold matchFenced, fence. rewrite startsWith_cons.
  rewrite (proj2 (N.eqb_neq backtick c)); [done|congruence].
Qed.

Lemma matchInlineCode_head (c : N) (r : jsstring) :
  c ≠ backtick → matchInlineCode (c :: r) = None.
Proof.
  intros Hc. unfold matchInlineCode.
  by rewrite (proj2 (N.eqb_neq c backtick) Hc).
Qed.

Lemma stripMarkdown_plain (s : jsstring) :
  cu "[" ∉ s → backtick ∉ s → stripMarkdown s = trim s.
Proof.
  intros Hbracket Htick. unfold stripMarkdown.
  rewrite (replaceAll_no_match _ s).
  2:{ intros c r Hc. rewrite matchLink_head; [done|]. by intros ->. }
  rewrite (replaceAll_no_match _ s).
  2:{ intros c r Hc. apply matchFenced_head. by intros ->. }
  rewrite (replaceAll_no_match _ s); [done|].
  intros c r Hc. apply matchInlineCode_head. by intros ->.
Qed.

(** X13: a text without an opening bracket and without a backtick is only
    trimmed: by [stripMarkdown], as a slug, and as the entry of a string field
    of a column that is not a time column. *)
Theorem plain_text_is_only_trimmed (s : jsstring) (field : Field)
    (codaColumnType : jsstring) (use12HourTime : bool) :
  cu "[" ∉ s → backtick ∉ s →
  stripMarkdown s = trim s
  ∧ extractSlugValue (VStr s) = Some (trim s)
  ∧ (field_type field = TString → codaColumnType ≠ str "time" →
     transformCodaValue (VStr s) field codaColumnType use12HourTime
     = Some {| entry_type := TString; entry_value := VStr (trim s) |}).
Proof.
  intros Hbracket Htick.
  pose proof (stripMarkdown_plain s Hbracket Htick) as Hplain.
  split_and!; [done| |].
  - simpl. by rewrite Hplain, trim_idemp.
  - intros Htype Htime%streqb_false. unfold transformCodaValue.
    rewrite Htype, Htime. simpl. unfold streqb. case_bool_decide as Hblank.
    + simpl. by rewrite Hblank.
    + unfold coerceString. simpl. by rewrite Hplain.
Qed.

End PlainText.

Lemma plain_text_is_only_trimmed_witness :
  @stripMarkdown asciiRuntime (str "  Hello, world  ") = str "Hello, world"
  ∧ @extractSlugValue asciiRuntime (VStr (str "  Hello, world  "))
    = Some (str "Hello, world").
Proof.
  destruct (@plain_text_is_only_trimmed asciiRuntime (str "  Hello, world  ")
              (exampleField "c1" "Title" TString None) (str "text") false)
    as (Hstrip & Hslug & _).
  - apply (bool_decide_unpack _). by vm_compute.
  - apply (bool_decide_unpack _). by vm_compute.
  - split; [exact Hstrip|exact Hslug].
Defined.

(** ** Markdown links and images *)

Lemma span_app {A} (p : A → bool) (a : list A) (c : A) (r : list A) :
  forallb p a = true → p c = false → span p (a ++ c :: r) = (a, c :: r).
Proof.
  intros Ha Hc. induction a as [|x a IH]; simpl.
  - by rewrite Hc.
  - simpl in Ha. apply andb_true_iff in Ha as [-> Ha]. by rewrite IH.
Qed.

Lemma forallb_not_elem_of (c : N) (s : jsstring) :
  c ∉ s → forallb (λ x, negb (x =? c)) s = true.
Proof.
  intros Hc. apply forallb_forall. intros x Hx%list_elem_of_In.
  apply negb_true_iff, N.eqb_neq. by intros ->.
Qed.

Lemma replaceAll_skip (m : jsstring → option (jsstring * nat)) (s : jsstring) :
  replaceAll m (length s) s = [].
Proof. induction s as [|c s IH]; simpl; done. Qed.

Section MarkdownProperties.
Context `{Runtime}.

Lemma matchLink_link (text url : jsstring) :
  text ≠ [] → url ≠ [] → cu "]" ∉ text → cu ")" ∉ url →
  matchLink (str "[" ++ text ++ str "](" ++ url ++ str ")")
  = Some (text, url, (length text + length url + 4)%nat).
Proof.
  intros Htext Hurl Hb Hp. unfold matchLink.
  change (str "[" ++ text ++ str "](" ++ url ++ str ")")
    with (cu "[" :: text ++ cu "]" :: cu "(" :: url ++ [cu ")"]).
  cbv beta iota. rewrite N.eqb_refl.
  rewrite (span_app _ text) by (by apply forallb_not_elem_of || by rewrite N.eqb_refl).
  destruct text as [|t text]; [done|].
  cbv beta iota. rewrite !N.eqb_refl. cbn [andb].
  rewrite (span_app _ url) by (by apply forallb_not_elem_of || by rewrite N.eqb_refl).
  by destruct url.
Qed.

(** X14: of a text that starts with a Markdown image, the URL of the image
    is extracted, trimmed; a text that is one Markdown link whose target is
    not a mailto address is stripped to the text of the link, trimmed. *)
Theorem markdown_links_and_images (text url rest : jsstring) :
  url ≠ [] → cu "]" ∉ text → cu ")" ∉ url →
  extractUrlFromMarkdown
    (str "![" ++ text ++ str "](" ++ url ++ str ")" ++ rest) = trim url
  ∧ (text ≠ [] → backtick ∉ text →
     startsWith url (str "mailto:") = false →
     stripMarkdown (str "[" ++ text ++ str "](" ++ url ++ str ")")
     = trim text).
Proof.
  intros Hurl Hb Hp. split.
  - unfold extractUrlFromMarkdown.
    change (str "![" ++ text ++ str "](" ++ url ++ str ")" ++ rest)
      with (cu "!" :: cu "[" :: text ++ cu "]" :: cu "(" :: url
            ++ cu ")" :: rest).
    assert (matchImage (cu "!" :: cu "[" :: text ++ cu "]" :: cu "(" :: url
                        ++ cu ")" :: rest) = Some url) as Himage.
    { unfold matchImage. rewrite !N.eqb_refl. cbn [andb].
      rewrite (span_app _ text)
        by (by apply forallb_not_elem_of || by rewrite N.eqb_refl).
      cbv beta iota. rewrite !N.eqb_refl. cbn [andb].
      rewrite (span_app _ url)
        by (by apply forallb_not_elem_of || by rewrite N.eqb_refl).
      by destruct url. }
    unfold firstMatch. by rewrite Himage.
  - intros Htext Htick Hmail. unfold stripMarkdown.
    assert (replaceAll
              (λ s, match matchLink s with
                    | Some (linkText, linkUrl, len) =>
                      Some (linkReplacement linkText linkUrl, len)
                    | None => None
                    end) 0
              (str "[" ++ text ++ str "](" ++ url ++ str ")") = text) as ->.
    { pose proof (matchLink_link text url Htext Hurl Hb Hp) as Hlink.
      change (str "[" ++ text ++ str "](" ++ url ++ str ")")
        with (cu "[" :: text ++ cu "]" :: cu "(" :: url ++ [cu ")"]) in *.
      cbn [replaceAll]. rewrite Hlink.
      unfold linkReplacement. rewrite Hmail.
      assert (Nat.pred (length text + length url + 4)
              = length (text ++ cu "]" :: cu "(" :: url ++ [cu ")"])) as ->.
      { rewrite length_app. simpl. rewrite length_app. simpl. lia. }
      by rewrite replaceAll_skip, app_nil_r. }
    rewrite (replaceAll_no_match _ text).
    2:{ intros c r Hc. apply matchFenced_head. by intros ->. }
    rewrite (replaceAll_no_match _ text); [done|].
    intros c r Hc. apply matchInlineCode_head. by intros ->.
Qed.

End MarkdownProperties.

Lemma markdown_links_and_images_witness :
  extractUrlFromMarkdown
    (str "![logo](https://cdn.example.com/a.png) and more")
  = str "https://cdn.example.com/a.png"
  ∧ @stripMarkdown asciiRuntime (str "[Home page](https://example.com)")
    = str "Home page".
Proof.
  destruct (@markdown_links_and_images asciiRuntime (str "logo")
              (str "https://cdn.example.com/a.png") (str " and more"))
    as [Himage _]; [done|by apply (bool_decide_unpack _); vm_compute..|].
  destruct (@markdown_links_and_images asciiRuntime (str "Home page")
              (str "https://example.com") [])
    as [_ Hlink]; [done|by apply (bool_decide_unpack _); vm_compute..|].
  split; [exact Himage|].
  apply Hlink; [done|by apply (bool_decide_unpack _); vm_compute|done].
Defined.
(** ** The time formatter *)

Lemma zrange_forallb (p : Z → bool) (n : nat) (z : Z) :
  forallb p (map Z.of_nat (seq 0 n)) = true →
  (0 ≤ z < Z.of_nat n)%Z → p z = true.
Proof.
  intros Hall Hz. rewrite forallb_forall in Hall. apply Hall.
  rewrite <- (Z2Nat.id z) by lia. apply in_map, in_seq. lia.
Qed.

Section TimeProperties.
Context `{Runtime}.

Lemma isDigit_range (c : N) : isDigit c = true → (48 ≤ c ≤ 57)%N.
Proof. unfold isDigit. intros [?%N.leb_le ?%N.leb_le]%andb_true_iff. lia. Qed.

Lemma matchMinutesSeconds_range (s : jsstring) (m sec : Z) :
  matchMinutesSeconds s = Some (m, sec) →
  (0 ≤ m < 60 ∧ 0 ≤ sec < 60)%Z.
Proof.
  unfold matchMinutesSeconds, digitZ.
  destruct s as [|m1 [|m2 r]]; try done.
  destruct (_ && _ && isDigit m2) eqn:Hm; [|done].
  apply andb_true_iff in Hm as [[?%N.leb_le ?%N.leb_le]%andb_true_iff
                                  ?%isDigit_range].
  destruct r as [|c [|s1 [|s2 [|? ?]]]]; try done.
  - intros [= <- <-]. lia.
  - destruct (_ && _ && _ && isDigit s2) eqn:Hs; [|done].
    apply andb_true_iff in Hs as [[[_ ?%N.leb_le]%andb_true_iff
                                     ?%N.leb_le]%andb_true_iff
                                    ?%isDigit_range].
    intros [= <- <-]. lia.
Qed.

Lemma matchTimeOnly_range (s : jsstring) (h m sec : Z) :
  matchTimeOnly s = Some (h, m, sec) →
  (0 ≤ h < 24 ∧ 0 ≤ m < 60 ∧ 0 ≤ sec < 60)%Z.
Proof.
  unfold matchTimeOnly, digitZ.
  destruct s as [|h1 [|c r]]; try done.
  destruct (isDigit h1 && (c =? cu ":")) eqn:Hone.
  - apply andb_true_iff in Hone as [?%isDigit_range _].
    destruct (matchMinutesSeconds r) as [[m' sec']|] eqn:Hms; [|done].
    apply matchMinutesSeconds_range in Hms. intros [= <- <- <-]. lia.
  - destruct r as [|c' r']; [done|].
    destruct ((c' =? cu ":") && _) eqn:Htwo; [|done].
    destruct (matchMinutesSeconds r') as [[m' sec']|] eqn:Hms; [|done].
    apply matchMinutesSeconds_range in Hms. intros [= <- <- <-].
    apply andb_true_iff in Htwo as [_ Htwo].
    apply orb_true_iff in Htwo as [Htwo|Htwo].
    + apply andb_true_iff in Htwo as [Hh ?%isDigit_range].
      apply orb_true_iff in Hh as [->%N.eqb_eq | ->%N.eqb_eq]; 
        unfold cu; simpl; lia.
    + apply andb_true_iff in Htwo as [[->%N.eqb_eq ?%N.leb_le]%andb_true_iff
                                        ?%N.leb_le].
      unfold cu; simpl; lia.
Qed.

(** A time of day that [formatTimeValue] has written on the clock of 24
    hours matches the pattern of a bare time, as the same time of day. *)
Lemma matchTimeOnly_formatted (h m sec : Z) :
  (0 ≤ h < 24)%Z → (0 ≤ m < 60)%Z → (0 ≤ sec < 60)%Z →
  matchTimeOnly
    (padStart0 2 (intToString h) ++ str ":" ++ padStart0 2 (intToString m)
     ++ (if (0 <? sec)%Z then str ":" ++ padStart0 2 (intToString sec)
         else []))
  = Some (h, m, sec).
Proof.
  intros Hh Hm Hsec.
  set (ok h m sec :=
         bool_decide
           (matchTimeOnly
              (padStart0 2 (intToString h) ++ str ":"
               ++ padStart0 2 (intToString m)
               ++ (if (0 <? sec)%Z then str ":" ++ padStart0 2 (intToString sec)
                   else []))
            = Some (h, m, sec))).
  assert (forallb (λ h, forallb (λ m, forallb (ok h m)
                                        (map Z.of_nat (seq 0 60)))
                          (map Z.of_nat (seq 0 60)))
            (map Z.of_nat (seq 0 24)) = true) as Hall by (by vm_compute).
  apply (zrange_forallb _ 24 h) in Hall; [|done].
  apply (zrange_forallb _ 60 m) in Hall; [|done].
  apply (zrange_forallb _ 60 sec) in Hall; [|done].
  by apply bool_decide_eq_true in Hall.
Qed.

Lemma matchTimeOnly_not_blank (s : jsstring) (t : Z * Z * Z) :
  matchTimeOnly s = Some t → isBlank (VStr s) = false.
Proof.
  intros Hs. destruct (isBlank (VStr s)) eqn:Hblank; [|done].
  apply isBlank_string in Hblank. exfalso.
  unfold matchTimeOnly in Hs. destruct s as [|h1 [|c r]]; try done.
  simpl in Hblank. apply andb_true_iff in Hblank as [Hh1 _].
  assert (isDigit h1 = true) as Hdigit%isDigit_range.
  { destruct (isDigit h1 && (c =? cu ":")) eqn:Hone.
    - by apply andb_true_iff in Hone as [? _].
    - destruct r as [|c' r']; [done|].
      destruct ((c' =? cu ":") && _) eqn:Htwo; [|done].
      apply andb_true_iff in Htwo as [_ Htwo].
      apply orb_true_iff in Htwo as [Htwo|Htwo].
      + apply andb_true_iff in Htwo as [Hh _].
        by apply orb_true_iff in Hh as [->%N.eqb_eq | ->%N.eqb_eq].
      + by apply andb_true_iff in Htwo
          as [[->%N.eqb_eq _]%andb_true_iff _]. }
  unfold isWhiteSpace in Hh1.
  repeat (apply orb_true_iff in Hh1 as [Hh1|Hh1]);
    try (apply N.eqb_eq in Hh1; lia).
  apply andb_true_iff in Hh1 as [?%N.leb_le _]. lia.
Qed.

(** X15: a text that is a bare time of day, [H:MM], [HH:MM] or with
    seconds.  Its hours are below 24 and its minutes and seconds below 60.
    On the clock of 24 hours it is written with two digits for the hours and
    without seconds that are zero; that text is again a bare time, of the same
    time of day, so formatting it again changes nothing, on either clock.  It
    is the entry of the cell in a string field of a time column. *)
Theorem bare_times_are_normalised (s : jsstring) (h m sec : Z)
    (use12HourTime : bool) :
  matchTimeOnly s = Some (h, m, sec) →
  (0 ≤ h < 24 ∧ 0 ≤ m < 60 ∧ 0 ≤ sec < 60)%Z
  ∧ ∃ t, formatTimeValue (VStr s) false = Some t
      ∧ t ≠ []
      ∧ matchTimeOnly t = Some (h, m, sec)
      ∧ formatTimeValue (VStr t) false = Some t
      ∧ formatTimeValue (VStr t) use12HourTime
        = formatTimeValue (VStr s) use12HourTime
      ∧ ∀ field, field_type field = TString →
          transformCodaValue (VStr s) field (str "time") false
          = Some {| entry_type := TString; entry_value := VStr t |}.
Proof.
  intros Hs. pose proof (matchTimeOnly_range s h m sec Hs) as (Hh & Hm & Hsec).
  split; [done|].
  pose proof (matchTimeOnly_formatted h m sec Hh Hm Hsec) as Ht.
  eexists. unfold formatTimeValue at 1. rewrite Hs. split; [done|].
  split_and!.
  - intros Hnil. by rewrite Hnil in Ht.
  - done.
  - unfold formatTimeValue. by rewrite Ht.
  - unfold formatTimeValue. by rewrite Ht, Hs.
  - intros field Htype. unfold transformCodaValue.
    rewrite (matchTimeOnly_not_blank s _ Hs), Htype, streqb_refl.
    unfold formatTimeValue at 1. rewrite Hs.
    match goal with
    | |- match ?t with [] => _ | _ :: _ => _ end = _ =>
      destruct t; [done|done]
    end.
Qed.

End TimeProperties.

Lemma bare_times_are_normalised_witness :
  @formatTimeValue asciiRuntime (VStr (str "9:05:00")) false
  = Some (str "09:05")
  ∧ @formatTimeValue asciiRuntime (VStr (str "09:05")) true
    = @formatTimeValue asciiRuntime (VStr (str "9:05:00")) true.
Proof.
  destruct (@bare_times_are_normalised asciiRuntime (str "9:05:00") 9 5 0 true
              eq_refl) as (_ & t & Ht & _ & _ & _ & H12 & _).
  split; [by vm_compute|].
  injection Ht as <-. exact H12.
Defined.
(** ** Declared choices *)

Section ChoiceProperties.
Context `{Runtime}.


End ChoiceProperties.

(** ** The warnings of a result *)

Section CountProperties.
Context `{Runtime}.

Lemma processRows_warnings_length fieldMap typeMap (slugFieldId : jsstring)
    (use12HourTime : bool) (rows : list NormalizedRow) (st : RowsState)
    (index : nat) :
  length (st_warnings (processRows fieldMap typeMap slugFieldId use12HourTime
                         st index rows))
  = (length (st_warnings st)
     + length (List.filter (rowSkipped slugFieldId) rows))%nat.
Proof.
  revert st index. induction rows as [|row rows IH]; intros st index.
  - simpl. lia.
  - cbn [processRows List.filter]. rewrite IH.
    destruct (rowSkipped slugFieldId row) eqn:Hskip.
    + destruct (processRow_skipped fieldMap typeMap slugFieldId use12HourTime
                  st index row Hskip) as (_ & _ & w & ->).
      rewrite length_app. simpl. lia.
    + destruct (processRow_kept fieldMap typeMap slugFieldId use12HourTime
                  st index row Hskip) as (? & ? & _ & _ & _ & _ & ->).
      simpl. lia.
Qed.

Lemma mapColumn_warnings_length (referenceMap : gmap jsstring jsstring)
    (column : CodaColumnInput) :
  (length (mapColumn referenceMap column).2 ≤ 1)%nat.
Proof. unfold mapColumn. repeat case_match; simpl; lia. Qed.

(** X17: the warnings of a result are those of the reference override, in
    the order of the columns and at most one per column, followed by one
    warning per skipped row: their number is the number of the former plus
    [skippedCount]. *)
Theorem warnings_are_counted (columns : list CodaColumnInput)
    (rows : list NormalizedRow) (slugFieldId : jsstring)
    (referenceMap : gmap jsstring jsstring) (use12HourTime : bool) :
  let result :=
    buildFieldsAndItems columns rows slugFieldId referenceMap use12HourTime in
  let fieldWarnings :=
    concat (map (λ column, (mapColumn referenceMap column).2) columns) in
  take (length fieldWarnings) (warnings result) = fieldWarnings
  ∧ length (warnings result)
    = (length fieldWarnings + skippedCount result)%nat
  ∧ (length fieldWarnings ≤ length columns)%nat
  ∧ (rows = [] → warnings result = fieldWarnings).
Proof.
  intros result fieldWarnings.
  assert (concat (map snd (map (mapColumn referenceMap) columns))
          = fieldWarnings) as Hfw by (by rewrite map_map).
  subst result. unfold buildFieldsAndItems. cbn [warnings skippedCount].
  rewrite Hfw. split_and!.
  - pose proof (processRows_warnings_prefix
                  (fieldMapOf (synthesizeEnumCases columns rows
                     (omap fst (map (mapColumn referenceMap) columns))))
                  (columnTypeMapOf columns) slugFieldId use12HourTime rows
                  {| st_items := []; st_warnings := fieldWarnings;
                     st_skippedCount := 0 |} 0) as [k Hk].
    simpl in Hk. rewrite Hk. by rewrite take_app_length.
  - rewrite processRows_warnings_length, processRows_skippedCount. simpl. lia.
  - subst fieldWarnings. clear. induction columns as [|column columns IH];
      simpl; [done|]. rewrite length_app.
    pose proof (mapColumn_warnings_length referenceMap column). lia.
  - by intros ->.
Qed.

End CountProperties.

(** ** The fields and the rows *)

Section RowIndependence.
Context `{Runtime}.

Lemma synthesizeEnumCases_index (columns : list CodaColumnInput)
    (rows : list NormalizedRow) (fs : list Field) (i : nat) (f : Field) :
  synthesizeEnumCases columns rows fs !! i = Some f →
  ∃ g, fs !! i = Some g
    ∧ field_id f = field_id g ∧ field_name f = field_name g
    ∧ field_type f = field_type g
    ∧ field_collectionId f = field_collectionId g
    ∧ field_allowedFileTypes f = field_allowedFileTypes g
    ∧ (isLookupField columns g = false → f = g).
Proof.
  unfold synthesizeEnumCases.
  destruct (List.filter (isLookupField columns) fs) as [|f0 l].
  - intros Hf. by exists f.
  - change (map ?h fs) with (h <$> fs). rewrite list_lookup_fmap.
    destruct (fs !! i) as [g|]; [|done]. simpl. intros [= <-]. exists g.
    split; [done|].
    destruct (isLookupField columns g); [|done].
    by destruct (field_cases g).
Qed.

(** X18: the rows, the slug column and the time format change nothing of the
    fields of a result but the cases of the lookup fields: two results for the
    same columns and reference map have fields with the same ids, names,
    types, collection ids and allowed file types, in the same order, and the
    same fields where the field is not the enum field of a lookup column. *)
Theorem rows_change_only_lookup_cases (columns : list CodaColumnInput)
    (rows rows' : list NormalizedRow) (slugFieldId slugFieldId' : jsstring)
    (referenceMap : gmap jsstring jsstring)
    (use12HourTime use12HourTime' : bool) :
  let fields1 :=
    fields (buildFieldsAndItems columns rows slugFieldId referenceMap
              use12HourTime) in
  let fields2 :=
    fields (buildFieldsAndItems columns rows' slugFieldId' referenceMap
              use12HourTime') in
  length fields1 = length fields2
  ∧ ∀ i f1 f2, fields1 !! i = Some f1 → fields2 !! i = Some f2 →
      field_id f1 = field_id f2 ∧ field_name f1 = field_name f2
      ∧ field_type f1 = field_type f2
      ∧ field_collectionId f1 = field_collectionId f2
      ∧ field_allowedFileTypes f1 = field_allowedFileTypes f2
      ∧ (isLookupField columns f1 = false → f1 = f2).
Proof.
  intros fields1 fields2. subst fields1 fields2.
  unfold buildFieldsAndItems. cbn [fields]. split.
  - by rewrite <- !(length_map field_id), !synthesizeEnumCases_ids.
  - intros i f1 f2 Hf1 Hf2.
    apply synthesizeEnumCases_index in Hf1
      as (g & Hg & Hid & Hname & Hty & Hco & Hal & Hsame).
    apply synthesizeEnumCases_index in Hf2
      as (g' & Hg' & Hid' & Hname' & Hty' & Hco' & Hal' & Hsame').
    assert (g' = g) as -> by congruence.
    split_and!; try congruence.
    intros Hlookup.
    assert (isLookupField columns g = false) as Hg0.
    { rewrite <- Hlookup. unfold isLookupField. by rewrite Hid, Hty. }
    by rewrite Hsame, Hsame'.
Qed.

End RowIndependence.

(** ** The push formulas *)

Lemma itemsToRemove_elem_of (existingItemIds : list jsstring)
    (items : list Item) (id : jsstring) :
  id ∈ itemsToRemove existingItemIds items ↔
  id ∈ existingItemIds
  ∧ ∀ item, item ∈ items → item_id item ≠ [] → item_id item ≠ id.
Proof.
  unfold itemsToRemove.
  rewrite elem_of_filter_bool, negb_true_iff, bool_decide_eq_false.
  rewrite !foldl_setAdd_elem_of, elem_of_filter_bool, nonEmpty_true.
  rewrite list_elem_of_fmap.
  pose proof (not_elem_of_nil id). split.
  - intros [[?|Hin] Hno]; [done|]. split; [done|].
    intros item Hitem Hne Hid. apply Hno. right.
    split; [by eauto|congruence].
  - intros [Hin Hno]. split; [by right|].
    intros [?|[(item & Hid & Hitem) Hne]]; [done|].
    apply (Hno item Hitem); congruence.
Qed.

Section PushProperties.
Context `{Runtime}.

Lemma itemOfRow_id fieldMap typeMap (slugFieldId : jsstring)
    (use12HourTime : bool) (row : NormalizedRow) (item : Item) :
  itemOfRow fieldMap typeMap slugFieldId use12HourTime row = Some item →
  item_id item ≠ [] ∧ row_id row = Some (item_id item).
Proof.
  unfold itemOfRow. destruct (rowSkipped slugFieldId row) eqn:Hskip; [done|].
  unfold rowSkipped, missingRowId in Hskip.
  apply orb_false_iff in Hskip as [Hid _].
  destruct (row_id row) as [[|c rowId]|]; try done.
  destruct (extractSlugValue _); [|done]. by intros [= <-].
Qed.

Lemma result_item_ids (columns : list CodaColumnInput)
    (rows : list NormalizedRow) (slugFieldId : jsstring)
    (referenceMap : gmap jsstring jsstring) (use12HourTime : bool)
    (item : Item) :
  item ∈ items (buildFieldsAndItems columns rows slugFieldId referenceMap
                  use12HourTime) →
  item_id item ≠ [].
Proof.
  rewrite items_of_result. intros (row & _ & Hitem)%list_elem_of_omap.
  by apply itemOfRow_id in Hitem as [? _].
Qed.

Lemma mapped_ids (referenceMap : gmap jsstring jsstring)
    (columns : list CodaColumnInput) :
  map field_id (omap fst (map (mapColumn referenceMap) columns))
  = map col_id
      (List.filter
         (λ column,
            negb (streqb (toLowerCase (fmt_type (col_format column)))
                    (str "button"))) columns).
Proof.
  induction columns as [|column columns IH]; [done|].
  cbn [map List.filter].
  change (omap fst (?x :: ?l)) with
    (match fst x with Some y => y :: omap fst l | None => omap fst l end).
  destruct (streqb _ (str "button")) eqn:Hb.
  - apply streqb_true, mapCodaTypeToFramerType_button in Hb.
    unfold mapColumn at 1. rewrite Hb. simpl. exact IH.
  - destruct (mapColumn referenceMap column).1 as [f|] eqn:Hf.
    + simpl. rewrite IH. f_equal. by apply (mapColumn_id referenceMap).
    + exfalso. unfold mapColumn in Hf.
      destruct (mapCodaTypeToFramerType column) eqn:Hm.
      * repeat case_match; by simplify_eq.
      * apply mapCodaTypeToFramerType_button, streqb_true in Hm. congruence.
Qed.

(** X20: what [PushTableToCollection] reports.  Every raw row is counted
    once, as added or as skipped.  The fields written are one per column that
    is not a button column, with the ids of these columns in their order, and
    [fieldsSet] is their number: the field filter drops none.  [addItems] is
    called with all the items, and not at all when there is none. *)
Theorem push_reports_every_row_and_column (slugFieldId : jsstring)
    (columnsInput : list RawColumn) (rowInput : list value)
    (referenceMapInput : option (list ReferenceMapEntry))
    (pruneMissing use12HourTime : bool)
    (existingFields : list Field) (existingItemIds : list jsstring) :
  let result :=
    PushTableToCollection slugFieldId columnsInput rowInput referenceMapInput
      pruneMissing use12HourTime existingFields existingItemIds in
  (itemsAdded result + itemsSkipped result)%nat = length rowInput
  ∧ fieldsSet result = length (setFields result)
  ∧ map field_id (setFields result)
    = map col_id
        (List.filter
           (λ column,
              negb (streqb (toLowerCase (fmt_type (col_format column)))
                      (str "button")))
           (normalizeColumns columnsInput))
  ∧ (fieldsSet result ≤ length columnsInput)%nat
  ∧ match addItems result with
    | Some pushed => length pushed = itemsAdded result ∧ pushed ≠ []
    | None => itemsAdded result = 0%nat
    end.
Proof.
  intros result. subst result. unfold PushTableToCollection.
  cbn [itemsAdded itemsSkipped fieldsSet setFields addItems].
  set (columns := normalizeColumns columnsInput).
  set (mapping := buildFieldsAndItems columns _ _ _ _).
  assert (compatibleFields
            (mergeFieldsWithExistingFields (fields mapping) existingFields)
          = mergeFieldsWithExistingFields (fields mapping) existingFields)
    as ->.
  { apply (compatibleFields_result columns). }
  assert (map field_id
            (mergeFieldsWithExistingFields (fields mapping) existingFields)
          = map col_id
              (List.filter
                 (λ column,
                    negb (streqb (toLowerCase (fmt_type (col_format column)))
                            (str "button"))) columns)) as Hids.
  { rewrite merge_ids. subst mapping. unfold buildFieldsAndItems.
    cbn [fields]. rewrite synthesizeEnumCases_ids. apply mapped_ids. }
  split_and!.
  - subst mapping. rewrite items_of_result.
    unfold buildFieldsAndItems. cbn [skippedCount fields].
    rewrite processRows_skippedCount. cbn [st_skippedCount].
    rewrite Nat.add_0_l, omap_itemOfRow_length.
    unfold normalizeRows. by rewrite length_map.
  - done.
  - done.
  - rewrite <- (length_map field_id), Hids, length_map.
    etrans; [apply List.filter_length_le|].
    subst columns. unfold normalizeColumns. by rewrite length_map.
  - destruct (items mapping); simpl; [done|]. split; done.
Qed.

(** X21: the pruning of [PushTableToCollection].  Without [pruneMissing]
    nothing is removed.  [removeItems] is never called with an empty list;
    the ids it is given are distinct, and they are the ids of the collection
    that are the id of no item pushed.  So with [pruneMissing], the item of a
    row that is skipped is removed from the collection, unless a row that is
    kept has its id. *)
Theorem prune_removes_what_is_not_pushed (slugFieldId : jsstring)
    (columnsInput : list RawColumn) (rowInput : list value)
    (referenceMapInput : option (list ReferenceMapEntry))
    (pruneMissing use12HourTime : bool)
    (existingFields : list Field) (existingItemIds : list jsstring) :
  let result :=
    PushTableToCollection slugFieldId columnsInput rowInput referenceMapInput
      pruneMissing use12HourTime existingFields existingItemIds in
  let pushed := default [] (addItems result) in
  (pruneMissing = false → removeItems result = None)
  ∧ (∀ ids, removeItems result = Some ids →
       ids ≠ [] ∧ NoDup ids
       ∧ ∀ id, id ∈ ids ↔ id ∈ existingItemIds ∧ id ∉ map item_id pushed)
  ∧ (pruneMissing = true →
     ∀ id, id ∈ existingItemIds → id ∉ map item_id pushed →
       ∃ ids, removeItems result = Some ids ∧ id ∈ ids).
Proof.
  intros result pushed. subst pushed result. unfold PushTableToCollection.
  cbn [removeItems addItems].
  set (mapping := buildFieldsAndItems _ _ _ _ _).
  assert (default [] (if (0 <? length (items mapping))%nat
                      then Some (items mapping) else None) = items mapping)
    as ->.
  { by destruct (items mapping). }
  assert (∀ id, id ∈ itemsToRemove existingItemIds (items mapping) ↔
            id ∈ existingItemIds ∧ id ∉ map item_id (items mapping)) as Hiff.
  { intros id. rewrite itemsToRemove_elem_of. apply and_iff_compat_l.
    rewrite list_elem_of_fmap. split.
    - intros Hno (item & -> & Hitem). apply (Hno item Hitem); [|done].
      by apply result_item_ids in Hitem.
    - intros Hno item Hitem _ Hid. apply Hno. eauto. }
  clearbody mapping. split_and!.
  - by intros ->.
  - intros ids. destruct pruneMissing; [|done]. simpl.
    destruct (itemsToRemove existingItemIds (items mapping)) as [|id0 l] eqn:Hl;
      simpl; [done|].
    intros [= <-]. split_and!; [done| |].
    + rewrite <- Hl. unfold itemsToRemove.
      apply NoDup_filter_bool, foldl_setAdd_NoDup.
    + apply Hiff.
  - intros -> id Hid Hno. simpl.
    assert (id ∈ itemsToRemove existingItemIds (items mapping)) as Hin
      by (by apply Hiff).
    destruct (itemsToRemove existingItemIds (items mapping)) as [|id0 l];
      [by apply elem_of_nil in Hin|].
    simpl. by eexists.
Qed.

(** X22: [PushRowToCollection] removes nothing and reports the row as added
    or as skipped; and it writes, for the enum field of a scalar lookup
    column, the cases that this one row gives: the labels of its cell. *)
Theorem row_push_writes_the_cases_of_the_row (slugFieldId : jsstring)
    (columnsInput : list RawColumn) (rowInput : value)
    (referenceMapInput : option (list ReferenceMapEntry))
    (use12HourTime : bool) (existingFields : list Field) :
  let result :=
    PushRowToCollection slugFieldId columnsInput rowInput referenceMapInput
      use12HourTime existingFields in
  removeItems result = None
  ∧ (itemsAdded result + itemsSkipped result)%nat = 1%nat
  ∧ (∀ column mappedField,
       column ∈ normalizeColumns columnsInput →
       toLowerCase (fmt_type (col_format column)) = str "lookup" →
       mapCodaTypeToFramerType column = Some mappedField →
       field_type mappedField = TEnum →
       ∃ f, f ∈ setFields result ∧ field_id f = col_id column
         ∧ field_type f = TEnum
         ∧ field_cases f
           = Some (map (λ label, {| case_id := label; case_name := label |})
                     (List.filter nonEmpty
                        (firstOccurrences []
                           (rowLabels (col_id column)
                              (normalizeRow rowInput)))))).
Proof.
  intros result. subst result. unfold PushRowToCollection. split_and!.
  - done.
  - unfold PushTableToCollection. cbn [itemsAdded itemsSkipped].
    rewrite items_of_result.
    unfold buildFieldsAndItems. cbn [skippedCount fields].
    rewrite processRows_skippedCount. cbn [st_skippedCount].
    by rewrite Nat.add_0_l, omap_itemOfRow_length.
  - intros column mappedField Hcolumn Hlookup Hmap Hty.
    unfold PushTableToCollection. cbn [setFields].
    rewrite compatibleFields_result.
    pose proof (lookup_field_of_result (normalizeColumns columnsInput)
                  (normalizeRows [rowInput]) slugFieldId
                  (buildReferenceMap referenceMapInput) use12HourTime
                  column mappedField Hcolumn Hlookup Hmap Hty) as Hf.
    assert (lookupLabels (col_id column) (normalizeRows [rowInput])
            = rowLabels (col_id column) (normalizeRow rowInput)) as Hlabels.
    { unfold lookupLabels, normalizeRows. simpl. apply app_nil_r. }
    rewrite Hlabels in Hf.
    apply list_elem_of_lookup in Hf as [i Hi].
    pose proof (merge_lookup
                  (fields (buildFieldsAndItems (normalizeColumns columnsInput)
                             (normalizeRows [rowInput]) slugFieldId
                             (buildReferenceMap referenceMapInput)
                             use12HourTime))
                  existingFields i) as Hm.
    rewrite Hi in Hm. simpl in Hm.
    apply list_elem_of_lookup_2 in Hm. eexists. split; [exact Hm|].
    by destruct (fieldMapOf existingFields !! col_id column).
Qed.

End PushProperties.

Lemma prune_removes_what_is_not_pushed_witness :
  let result :=
    @PushTableToCollection asciiRuntime (str "c1")
      (map rawOfColumn [exampleColumn "c1" "Title" "text" false None])
      [VObj [(str "id", VStr (str "r1")); (str "c1", VStr (str "One"))];
       VObj [(str "id", VStr (str "r2")); (str "c1", VStr (str "  "))];
       VNull]
      None true false [] [str "r1"; str "r2"; str "r9"; str "r2"] in
  removeItems result = Some [str "r2"; str "r9"]
  ∧ map item_id (default [] (addItems result)) = [str "r1"]
  ∧ itemsSkipped result = 2%nat
  ∧ ∀ id, id ∈ [str "r2"; str "r9"] ↔
      id ∈ [str "r1"; str "r2"; str "r9"; str "r2"] ∧ id ∉ [str "r1"].
Proof.
  split_and!; [by vm_compute..|].
  destruct (proj1 (proj2 (@prune_removes_what_is_not_pushed asciiRuntime
    (str "c1")
    (map rawOfColumn [exampleColumn "c1" "Title" "text" false None])
    [VObj [(str "id", VStr (str "r1")); (str "c1", VStr (str "One"))];
     VObj [(str "id", VStr (str "r2")); (str "c1", VStr (str "  "))];
     VNull]
    None true false [] [str "r1"; str "r2"; str "r9"; str "r2"]))
    [str "r2"; str "r9"] eq_refl) as (_ & _ & Hiff).
  exact Hiff.
Defined.

Lemma row_push_writes_the_cases_of_the_row_witness :
  let result :=
    @PushRowToCollection asciiRuntime (str "c1")
      (map rawOfColumn
         [exampleColumn "c1" "Title" "text" false None;
          exampleColumn "c2" "Color" "lookup" false None])
      (VObj [(str "id", VStr (str "r7"));
             (str "values",
              VObj [(str "c1", VStr (str "Seven"));
                    (str "c2", VStr (str "Green"))])])
      None false
      [{| field_id := str "c2"; field_name := str "Colour";
          field_type := TEnum;
          field_cases :=
            Some [{| case_id := str "Red"; case_name := str "Red" |}];
          field_collectionId := None; field_allowedFileTypes := None |}] in
  itemsAdded result = 1%nat
  ∧ ∃ f, f ∈ setFields result ∧ field_id f = str "c2"
      ∧ field_type f = TEnum
      ∧ field_cases f
        = Some [{| case_id := str "Green"; case_name := str "Green" |}].
Proof.
  split; [by vm_compute|].
  apply (proj2 (proj2 (@row_push_writes_the_cases_of_the_row asciiRuntime
    (str "c1")
    (map rawOfColumn
       [exampleColumn "c1" "Title" "text" false None;
        exampleColumn "c2" "Color" "lookup" false None])
    (VObj [(str "id", VStr (str "r7"));
           (str "values",
            VObj [(str "c1", VStr (str "Seven"));
                  (str "c2", VStr (str "Green"))])])
    None false
    [{| field_id := str "c2"; field_name := str "Colour";
        field_type := TEnum;
        field_cases :=
          Some [{| case_id := str "Red"; case_name := str "Red" |}];
        field_collectionId := None; field_allowedFileTypes := None |}]))
    (exampleColumn "c2" "Color" "lookup" false None)
    {| field_id := str "c2"; field_name := str "Color"; field_type := TEnum;
       field_cases := Some []; field_collectionId := None;
       field_allowedFileTypes := None |}).
  - right; left.
  - by vm_compute.
  - by vm_compute.
  - by vm_compute.
Defined.
